(** * The voice conversation controllers of the frontend

  A shallow embedding of the two React components that drive a spoken
  conversation:

  - [SpeechConversation] (components/SpeechConversation.tsx): browser
    speech recognition, a backend message endpoint and speech synthesis;
  - [VoiceChat] (components/VoiceChat.tsx): a WebRTC peer connection with
    trickle signalling.

  React state variables and [useRef] cells become fields of a record; every
  handler of the source becomes a function on that record.  A handler that
  suspends at an [await] is split at the suspension point: the part that
  runs at once, and one function per continuation, taking the outcome of
  the awaited operation.  Calls into the browser (recognition, synthesis,
  [fetch], navigation) are recorded, in order, in a log of effects, and the
  browser objects a ref points to live in an explicit store. *)

From Stdlib Require Import String Ascii List Bool Arith Lia QArith_base.
From stdpp Require Import base list strings sorting.
Import ListNotations.

Local Open Scope string_scope.
Local Open Scope list_scope.

(** ** JavaScript strings *)

Module JsString.

(** A string used as a condition is falsy exactly when it is empty. *)
Definition is_empty (s : string) : bool :=
  match s with
  | EmptyString => true
  | String _ _ => false
  end.

(** A [string] holds the UTF-8 encoding of the text of the JavaScript
    string.  [String.prototype.trim] removes, at both ends, the code points
    of WhiteSpace and LineTerminator: TAB, LF, VT, FF, CR, SPACE, U+00A0,
    U+FEFF, U+2028, U+2029 and the space separators (Zs) U+1680, U+2000 to
    U+200A, U+202F, U+205F and U+3000.  In UTF-8 no encoding of a code point
    starts or ends inside that of another, so they are found as byte
    sequences.  The first six take one byte: *)
Definition is_ws (c : ascii) : bool :=
  match nat_of_ascii c with
  | 9 | 10 | 11 | 12 | 13 | 32 => true
  | _ => false
  end.

Definition is_byte (n : nat) (c : ascii) : bool := Nat.eqb (nat_of_ascii c) n.

(** U+00A0 takes two, C2 A0; *)
Definition is_ws2 (a b : ascii) : bool := is_byte 194 a && is_byte 160 b.

(** the others take three: U+1680 is E1 9A 80, U+2000 to U+200A are
    E2 80 80 to E2 80 8A, U+2028 and U+2029 are E2 80 A8 and E2 80 A9,
    U+202F is E2 80 AF, U+205F is E2 81 9F, U+3000 is E3 80 80 and U+FEFF
    is EF BB BF. *)
Definition is_ws3 (a b c : ascii) : bool :=
  is_byte 225 a && is_byte 154 b && is_byte 128 c
  || is_byte 226 a && is_byte 128 b
     && (Nat.leb 128 (nat_of_ascii c) && Nat.leb (nat_of_ascii c) 138
         || is_byte 168 c || is_byte 169 c || is_byte 175 c)
  || is_byte 226 a && is_byte 129 b && is_byte 159 c
  || is_byte 227 a && is_byte 128 b && is_byte 128 c
  || is_byte 239 a && is_byte 187 b && is_byte 191 c.

(** The string is one code point of white space. *)
Definition is_white (s : string) : bool :=
  match s with
  | String a EmptyString => is_ws a
  | String a (String b EmptyString) => is_ws2 a b
  | String a (String b (String c EmptyString)) => is_ws3 a b c
  | _ => false
  end.

(** The string starts with a code point of white space. *)
Definition starts_white (s : string) : bool :=
  match s with
  | EmptyString => false
  | String a r =>
      is_ws a
      || match r with
         | EmptyString => false
         | String b r =>
             is_ws2 a b
             || match r with
                | EmptyString => false
                | String c _ => is_ws3 a b c
                end
         end
  end.

(** Leading white space goes, one code point of one, two or three bytes at
    a time. *)
Fixpoint trim_start (s : string) : string :=
  match s with
  | EmptyString => EmptyString
  | String a r =>
      if is_ws a then trim_start r
      else
        match r with
        | EmptyString => s
        | String b r =>
            if is_ws2 a b then trim_start r
            else
              match r with
              | EmptyString => s
              | String c r => if is_ws3 a b c then trim_start r else s
              end
        end
  end.

(** Trailing white space goes: a code point is dropped when it is white
    space and nothing is left of what follows it. *)
Fixpoint trim_end (s : string) : string :=
  match s with
  | EmptyString => EmptyString
  | String c r =>
      let r' := String c (trim_end r) in
      if is_white r' then EmptyString else r'
  end.

Definition trim (s : string) : string := trim_end (trim_start s).

(** [hay.includes(needle)]: some suffix of [hay] starts with [needle]. *)
Fixpoint includes (needle hay : string) : bool :=
  if String.prefix needle hay then true
  else match hay with
       | EmptyString => false
       | String _ r => includes needle r
       end.

(** [a || b] on strings. *)
Definition or_else (a : option string) (b : string) : string :=
  match a with
  | Some x => if is_empty x then b else x
  | None => b
  end.

Fixpoint drop_leading_empty (l : list string) : list string :=
  match l with
  | [] => []
  | x :: r => if is_empty x then drop_leading_empty r else l
  end.

End JsString.

Import JsString.

(** ** SpeechConversation.tsx *)

Module SpeechConversation.

Inductive MessageType := user | system.

#[global] Instance MessageType_eq_dec : EqDecision MessageType.
Proof. solve_decision. Defined.

Record Message := { text : string; type : MessageType }.

Record VoiceSettings := { rate : Q; pitch : Q; volume : Q }.

Record SpeechSynthesisVoice := { name : string; lang : string }.

Record SpeechSynthesisUtterance := {
  u_text : string;
  u_voice : option SpeechSynthesisVoice;
  u_rate : Q;
  u_pitch : Q;
  u_volume : Q
}.

(** One entry [event.results[i]]: the transcript of its first alternative,
    [event.results[i][0].transcript], and [event.results[i].isFinal]. *)
Record SpeechRecognitionAlternative := {
  transcript : string;
  isFinal : bool
}.

Record SpeechRecognitionEvent := {
  results : list SpeechRecognitionAlternative;
  resultIndex : nat
}.

(** A backend message call that has been sent and not yet answered. *)
Record MessageCall := { call_conversation : string; call_text : string }.

(** What a run of [toggleListening] suspended at [getUserMedia] reads when
    it resumes: the values of the render that created the callback
    ([useCallback] with these three dependencies). *)
Record ToggleClosure := {
  cl_speechRecognition : bool;
  cl_isListening : bool;
  cl_isSpeaking : bool
}.

(** Calls into the browser, in the order they are made. *)
Inductive Effect :=
| RecognitionStart
| RecognitionStop
| GetUserMedia
| StreamTracksStop
| SynthCancel
| SynthSpeak (u : SpeechSynthesisUtterance)
| FetchStart
| FetchMessage (conversation text : string)
| Navigate (path : string)
| Alert (message : string).

Record State := {
  (* useState *)
  messages : list Message;
  isListening : bool;
  isSpeaking : bool;
  speechRecognition : bool;          (* the recognition object is not null *)
  interimTranscript : string;
  finalTranscript : string;
  error : option string;
  isLoading : bool;
  resetDialogOpen : bool;
  (* useRef *)
  finalTranscriptRef : string;
  conversationIdRef : option string;
  isInitializedRef : bool;
  selectedVoiceRef : option SpeechSynthesisVoice;
  (* browser *)
  repoConfig : bool;                 (* localStorage holds 'repoConfig' *)
  recognizing : bool;                (* between recognition.start() and onend *)
  speechSynthesis : option (list SpeechSynthesisUtterance);
                                     (* None: no window.speechSynthesis;
                                        Some q: utterances queued or spoken *)
  voices : list SpeechSynthesisVoice;
  startPending : bool;               (* conversation/start not answered yet *)
  outstanding : list MessageCall;
  mediaRequests : list ToggleClosure;
  effects : list Effect
}.

Definition set_messages (v : list Message) (s : State) : State :=
  {| messages := v; isListening := isListening s; isSpeaking := isSpeaking s;
     speechRecognition := speechRecognition s;
     interimTranscript := interimTranscript s;
     finalTranscript := finalTranscript s; error := error s;
     isLoading := isLoading s; resetDialogOpen := resetDialogOpen s;
     finalTranscriptRef := finalTranscriptRef s;
     conversationIdRef := conversationIdRef s;
     isInitializedRef := isInitializedRef s;
     selectedVoiceRef := selectedVoiceRef s; repoConfig := repoConfig s;
     recognizing := recognizing s; speechSynthesis := speechSynthesis s;
     voices := voices s; startPending := startPending s;
     outstanding := outstanding s; mediaRequests := mediaRequests s;
     effects := effects s |}.

Definition set_isListening (v : bool) (s : State) : State :=
  {| messages := messages s; isListening := v; isSpeaking := isSpeaking s;
     speechRecognition := speechRecognition s;
     interimTranscript := interimTranscript s;
     finalTranscript := finalTranscript s; error := error s;
     isLoading := isLoading s; resetDialogOpen := resetDialogOpen s;
     finalTranscriptRef := finalTranscriptRef s;
     conversationIdRef := conversationIdRef s;
     isInitializedRef := isInitializedRef s;
     selectedVoiceRef := selectedVoiceRef s; repoConfig := repoConfig s;
     recognizing := recognizing s; speechSynthesis := speechSynthesis s;
     voices := voices s; startPending := startPending s;
     outstanding := outstanding s; mediaRequests := mediaRequests s;
     effects := effects s |}.

Definition set_isSpeaking (v : bool) (s : State) : State :=
  {| messages := messages s; isListening := isListening s; isSpeaking := v;
     speechRecognition := speechRecognition s;
     interimTranscript := interimTranscript s;
     finalTranscript := finalTranscript s; error := error s;
     isLoading := isLoading s; resetDialogOpen := resetDialogOpen s;
     finalTranscriptRef := finalTranscriptRef s;
     conversationIdRef := conversationIdRef s;
     isInitializedRef := isInitializedRef s;
     selectedVoiceRef := selectedVoiceRef s; repoConfig := repoConfig s;
     recognizing := recognizing s; speechSynthesis := speechSynthesis s;
     voices := voices s; startPending := startPending s;
     outstanding := outstanding s; mediaRequests := mediaRequests s;
     effects := effects s |}.

Definition set_interimTranscript (v : string) (s : State) : State :=
  {| messages := messages s; isListening := isListening s;
     isSpeaking := isSpeaking s; speechRecognition := speechRecognition s;
     interimTranscript := v;
     finalTranscript := finalTranscript s; error := error s;
     isLoading := isLoading s; resetDialogOpen := resetDialogOpen s;
     finalTranscriptRef := finalTranscriptRef s;
     conversationIdRef := conversationIdRef s;
     isInitializedRef := isInitializedRef s;
     selectedVoiceRef := selectedVoiceRef s; repoConfig := repoConfig s;
     recognizing := recognizing s; speechSynthesis := speechSynthesis s;
     voices := voices s; startPending := startPending s;
     outstanding := outstanding s; mediaRequests := mediaRequests s;
     effects := effects s |}.

Definition set_finalTranscript (v : string) (s : State) : State :=
  {| messages := messages s; isListening := isListening s;
     isSpeaking := isSpeaking s; speechRecognition := speechRecognition s;
     interimTranscript := interimTranscript s;
     finalTranscript := v; error := error s;
     isLoading := isLoading s; resetDialogOpen := resetDialogOpen s;
     finalTranscriptRef := finalTranscriptRef s;
     conversationIdRef := conversationIdRef s;
     isInitializedRef := isInitializedRef s;
     selectedVoiceRef := selectedVoiceRef s; repoConfig := repoConfig s;
     recognizing := recognizing s; speechSynthesis := speechSynthesis s;
     voices := voices s; startPending := startPending s;
     outstanding := outstanding s; mediaRequests := mediaRequests s;
     effects := effects s |}.

Definition set_error (v : option string) (s : State) : State :=
  {| messages := messages s; isListening := isListening s;
     isSpeaking := isSpeaking s; speechRecognition := speechRecognition s;
     interimTranscript := interimTranscript s;
     finalTranscript := finalTranscript s; error := v;
     isLoading := isLoading s; resetDialogOpen := resetDialogOpen s;
     finalTranscriptRef := finalTranscriptRef s;
     conversationIdRef := conversationIdRef s;
     isInitializedRef := isInitializedRef s;
     selectedVoiceRef := selectedVoiceRef s; repoConfig := repoConfig s;
     recognizing := recognizing s; speechSynthesis := speechSynthesis s;
     voices := voices s; startPending := startPending s;
     outstanding := outstanding s; mediaRequests := mediaRequests s;
     effects := effects s |}.

Definition set_isLoading (v : bool) (s : State) : State :=
  {| messages := messages s; isListening := isListening s;
     isSpeaking := isSpeaking s; speechRecognition := speechRecognition s;
     interimTranscript := interimTranscript s;
     finalTranscript := finalTranscript s; error := error s;
     isLoading := v; resetDialogOpen := resetDialogOpen s;
     finalTranscriptRef := finalTranscriptRef s;
     conversationIdRef := conversationIdRef s;
     isInitializedRef := isInitializedRef s;
     selectedVoiceRef := selectedVoiceRef s; repoConfig := repoConfig s;
     recognizing := recognizing s; speechSynthesis := speechSynthesis s;
     voices := voices s; startPending := startPending s;
     outstanding := outstanding s; mediaRequests := mediaRequests s;
     effects := effects s |}.

Definition set_resetDialogOpen (v : bool) (s : State) : State :=
  {| messages := messages s; isListening := isListening s;
     isSpeaking := isSpeaking s; speechRecognition := speechRecognition s;
     interimTranscript := interimTranscript s;
     finalTranscript := finalTranscript s; error := error s;
     isLoading := isLoading s; resetDialogOpen := v;
     finalTranscriptRef := finalTranscriptRef s;
     conversationIdRef := conversationIdRef s;
     isInitializedRef := isInitializedRef s;
     selectedVoiceRef := selectedVoiceRef s; repoConfig := repoConfig s;
     recognizing := recognizing s; speechSynthesis := speechSynthesis s;
     voices := voices s; startPending := startPending s;
     outstanding := outstanding s; mediaRequests := mediaRequests s;
     effects := effects s |}.

Definition set_finalTranscriptRef (v : string) (s : State) : State :=
  {| messages := messages s; isListening := isListening s;
     isSpeaking := isSpeaking s; speechRecognition := speechRecognition s;
     interimTranscript := interimTranscript s;
     finalTranscript := finalTranscript s; error := error s;
     isLoading := isLoading s; resetDialogOpen := resetDialogOpen s;
     finalTranscriptRef := v;
     conversationIdRef := conversationIdRef s;
     isInitializedRef := isInitializedRef s;
     selectedVoiceRef := selectedVoiceRef s; repoConfig := repoConfig s;
     recognizing := recognizing s; speechSynthesis := speechSynthesis s;
     voices := voices s; startPending := startPending s;
     outstanding := outstanding s; mediaRequests := mediaRequests s;
     effects := effects s |}.

Definition set_conversationIdRef (v : option string) (s : State) : State :=
  {| messages := messages s; isListening := isListening s;
     isSpeaking := isSpeaking s; speechRecognition := speechRecognition s;
     interimTranscript := interimTranscript s;
     finalTranscript := finalTranscript s; error := error s;
     isLoading := isLoading s; resetDialogOpen := resetDialogOpen s;
     finalTranscriptRef := finalTranscriptRef s;
     conversationIdRef := v;
     isInitializedRef := isInitializedRef s;
     selectedVoiceRef := selectedVoiceRef s; repoConfig := repoConfig s;
     recognizing := recognizing s; speechSynthesis := speechSynthesis s;
     voices := voices s; startPending := startPending s;
     outstanding := outstanding s; mediaRequests := mediaRequests s;
     effects := effects s |}.

Definition set_recognizing (v : bool) (s : State) : State :=
  {| messages := messages s; isListening := isListening s;
     isSpeaking := isSpeaking s; speechRecognition := speechRecognition s;
     interimTranscript := interimTranscript s;
     finalTranscript := finalTranscript s; error := error s;
     isLoading := isLoading s; resetDialogOpen := resetDialogOpen s;
     finalTranscriptRef := finalTranscriptRef s;
     conversationIdRef := conversationIdRef s;
     isInitializedRef := isInitializedRef s;
     selectedVoiceRef := selectedVoiceRef s; repoConfig := repoConfig s;
     recognizing := v; speechSynthesis := speechSynthesis s;
     voices := voices s; startPending := startPending s;
     outstanding := outstanding s; mediaRequests := mediaRequests s;
     effects := effects s |}.

Definition set_speechSynthesis
    (v : option (list SpeechSynthesisUtterance)) (s : State) : State :=
  {| messages := messages s; isListening := isListening s;
     isSpeaking := isSpeaking s; speechRecognition := speechRecognition s;
     interimTranscript := interimTranscript s;
     finalTranscript := finalTranscript s; error := error s;
     isLoading := isLoading s; resetDialogOpen := resetDialogOpen s;
     finalTranscriptRef := finalTranscriptRef s;
     conversationIdRef := conversationIdRef s;
     isInitializedRef := isInitializedRef s;
     selectedVoiceRef := selectedVoiceRef s; repoConfig := repoConfig s;
     recognizing := recognizing s; speechSynthesis := v;
     voices := voices s; startPending := startPending s;
     outstanding := outstanding s; mediaRequests := mediaRequests s;
     effects := effects s |}.

Definition set_startPending (v : bool) (s : State) : State :=
  {| messages := messages s; isListening := isListening s;
     isSpeaking := isSpeaking s; speechRecognition := speechRecognition s;
     interimTranscript := interimTranscript s;
     finalTranscript := finalTranscript s; error := error s;
     isLoading := isLoading s; resetDialogOpen := resetDialogOpen s;
     finalTranscriptRef := finalTranscriptRef s;
     conversationIdRef := conversationIdRef s;
     isInitializedRef := isInitializedRef s;
     selectedVoiceRef := selectedVoiceRef s; repoConfig := repoConfig s;
     recognizing := recognizing s; speechSynthesis := speechSynthesis s;
     voices := voices s; startPending := v;
     outstanding := outstanding s; mediaRequests := mediaRequests s;
     effects := effects s |}.

Definition set_outstanding (v : list MessageCall) (s : State) : State :=
  {| messages := messages s; isListening := isListening s;
     isSpeaking := isSpeaking s; speechRecognition := speechRecognition s;
     interimTranscript := interimTranscript s;
     finalTranscript := finalTranscript s; error := error s;
     isLoading := isLoading s; resetDialogOpen := resetDialogOpen s;
     finalTranscriptRef := finalTranscriptRef s;
     conversationIdRef := conversationIdRef s;
     isInitializedRef := isInitializedRef s;
     selectedVoiceRef := selectedVoiceRef s; repoConfig := repoConfig s;
     recognizing := recognizing s; speechSynthesis := speechSynthesis s;
     voices := voices s; startPending := startPending s;
     outstanding := v; mediaRequests := mediaRequests s;
     effects := effects s |}.

Definition set_mediaRequests (v : list ToggleClosure) (s : State) : State :=
  {| messages := messages s; isListening := isListening s;
     isSpeaking := isSpeaking s; speechRecognition := speechRecognition s;
     interimTranscript := interimTranscript s;
     finalTranscript := finalTranscript s; error := error s;
     isLoading := isLoading s; resetDialogOpen := resetDialogOpen s;
     finalTranscriptRef := finalTranscriptRef s;
     conversationIdRef := conversationIdRef s;
     isInitializedRef := isInitializedRef s;
     selectedVoiceRef := selectedVoiceRef s; repoConfig := repoConfig s;
     recognizing := recognizing s; speechSynthesis := speechSynthesis s;
     voices := voices s; startPending := startPending s;
     outstanding := outstanding s; mediaRequests := v;
     effects := effects s |}.

Definition set_effects (v : list Effect) (s : State) : State :=
  {| messages := messages s; isListening := isListening s;
     isSpeaking := isSpeaking s; speechRecognition := speechRecognition s;
     interimTranscript := interimTranscript s;
     finalTranscript := finalTranscript s; error := error s;
     isLoading := isLoading s; resetDialogOpen := resetDialogOpen s;
     finalTranscriptRef := finalTranscriptRef s;
     conversationIdRef := conversationIdRef s;
     isInitializedRef := isInitializedRef s;
     selectedVoiceRef := selectedVoiceRef s; repoConfig := repoConfig s;
     recognizing := recognizing s; speechSynthesis := speechSynthesis s;
     voices := voices s; startPending := startPending s;
     outstanding := outstanding s; mediaRequests := mediaRequests s;
     effects := v |}.

(** [setMessages(prev => [...prev, m])]. *)
Definition push_message (m : Message) (s : State) : State :=
  set_messages (messages s ++ [m]) s.

Definition emit (e : Effect) (s : State) : State :=
  set_effects (effects s ++ [e]) s.

Definition navigate (path : string) (s : State) : State :=
  emit (Navigate path) s.

(** *** recognition.onresult (lines 228-249)

    The updater passed to [setFinalTranscript] is applied when the result is
    handled: it reads the previous React value, not the ref, and writes the
    new value to both.  [accumulate] is its expression
    [prev ? `${prev} ${transcript}` : transcript]. *)
Definition accumulate (prev transcript : string) : string :=
  if is_empty prev then transcript else prev +:+ " " +:+ transcript.

Definition onresult_item (s : State) (r : SpeechRecognitionAlternative)
    : State :=
  if isFinal r then
    let newTranscript := accumulate (finalTranscript s) (transcript r) in
    set_finalTranscript newTranscript
      (set_finalTranscriptRef newTranscript s)
  else
    set_interimTranscript (transcript r) s.

(** [for (let i = event.resultIndex; i < event.results.length; i++)]. *)
Definition onresult (event : SpeechRecognitionEvent) (s : State) : State :=
  fold_left onresult_item (drop (resultIndex event) (results event)) s.

(** *** handleReset (lines 559-563) *)
Definition handleReset (s : State) : State :=
  navigate "/auth" (set_resetDialogOpen false (set_conversationIdRef None s)).

(** *** speakText (lines 454-504) *)

(** The selected voice, or else the first voice whose language starts with
    'en', or none. *)
Definition default_voice (s : State) : option SpeechSynthesisVoice :=
  match selectedVoiceRef s with
  | Some v => Some v
  | None => find (fun v => String.prefix "en" (lang v)) (voices s)
  end.

Definition make_utterance (voiceSettings : VoiceSettings) (text : string)
    (s : State) : SpeechSynthesisUtterance :=
  {| u_text := text; u_voice := default_voice s;
     u_rate := rate voiceSettings; u_pitch := pitch voiceSettings;
     u_volume := volume voiceSettings |}.

(** [voiceSettings] is the value of the render whose closure is running;
    [cancel()] empties the queue of the synthesiser before [speak]. *)
Definition speakText (voiceSettings : VoiceSettings) (text : string)
    (s : State) : State :=
  match speechSynthesis s with
  | None => s
  | Some _ =>
      let utterance := make_utterance voiceSettings text s in
      emit (SynthSpeak utterance)
        (set_speechSynthesis (Some [utterance]) (emit SynthCancel s))
  end.

(** [useState<VoiceSettings>({rate: 1.0, pitch: 1.0, volume: 1.0})]. *)
Definition initialVoiceSettings : VoiceSettings :=
  {| rate := 1; pitch := 1; volume := 1 |}.

(** *** handleUserInput (lines 387-452)

    The function suspends once, at [await fetch(...)].  [handleUserInput] is
    the part that runs when it is called, [handleUserInput_resume] the part
    that runs when the backend has answered. *)
Definition handleUserInput (text : string) (s : State) : State :=
  if is_empty (trim text) then s
  else
    let s := push_message {| text := text; type := user |} s in
    if negb (repoConfig s) then navigate "/auth" s
    else
      match conversationIdRef s with
      | None => set_error (Some "No active conversation. Please try again.") s
      | Some currentConversationId =>
          let s := set_isLoading true (set_error None s) in
          set_outstanding
            (outstanding s ++
               [{| call_conversation := currentConversationId;
                   call_text := text |}])
            (emit (FetchMessage currentConversationId text) s)
      end.

Inductive FetchOutcome :=
| ResponseOk (data_text : string)
| ResponseNotOk (errorData_message : option string)
| FetchRejected (message : string).

(** The message of the [Error] caught at line 439. *)
Definition error_message (o : FetchOutcome) : option string :=
  match o with
  | ResponseOk _ => None
  | ResponseNotOk m => Some (or_else m "Failed to process message")
  | FetchRejected m => Some m
  end.

Definition fallback_message : Message :=
  {| text := "I'm having trouble processing your request right now. Please try again.";
     type := system |}.

(** [onend] is installed once, by an effect with no dependencies, so the
    [handleUserInput] it calls, and the [speakText] inside it, are those of
    the first render: [voiceSettings] is the initial value there. *)
Definition handleUserInput_resume (o : FetchOutcome) (s : State) : State :=
  match o with
  | ResponseOk data_text =>
      speakText initialVoiceSettings data_text
        (push_message {| text := data_text; type := system |}
           (set_isLoading false s))
  | _ =>
      let s :=
        set_isLoading false
          (set_error
             (Some "Sorry, there was an error processing your request. Please try again.")
             s) in
      if includes "repository" (default "" (error_message o))
      then handleReset s
      else push_message fallback_message s
  end.

(** *** recognition.onend and recognition.onerror (lines 251-264) *)
Definition onend (s : State) : State :=
  let s :=
    if is_empty (finalTranscriptRef s) then s
    else
      set_finalTranscriptRef ""
        (set_finalTranscript ""
           (handleUserInput (trim (finalTranscriptRef s)) s)) in
  set_isListening false (set_recognizing false s).

Definition onerror (s : State) : State := set_isListening false s.

(** *** toggleListening (lines 520-557)

    Suspends at [await getUserMedia(...)] in the branch that starts
    listening; the continuation tests the [speechRecognition] and
    [isSpeaking] of the closure. *)
Definition closure_of (s : State) : ToggleClosure :=
  {| cl_speechRecognition := speechRecognition s;
     cl_isListening := isListening s;
     cl_isSpeaking := isSpeaking s |}.

Definition toggleListening (s : State) : State :=
  if isListening s then
    if speechRecognition s
    then set_isListening false (emit RecognitionStop s)
    else s
  else
    set_mediaRequests (mediaRequests s ++ [closure_of s])
      (emit GetUserMedia s).

Inductive MediaOutcome :=
| MediaGranted
| MediaDenied (message : string).

(** [recognition.start()] on a recognition that has not ended yet throws;
    the browser chooses the text. *)
Definition already_started : string := "recognition has already started".

Definition toggleListening_resume (cl : ToggleClosure) (o : MediaOutcome)
    (s : State) : State :=
  match o with
  | MediaGranted =>
      let s := emit StreamTracksStop s in
      if cl_speechRecognition cl && negb (cl_isSpeaking cl) then
        let s := set_interimTranscript "" (set_finalTranscript "" s) in
        if recognizing s
        then emit (Alert ("Error accessing microphone: " +:+ already_started)) s
        else set_isListening true
               (set_recognizing true (emit RecognitionStart s))
      else s
  | MediaDenied message =>
      emit (Alert ("Error accessing microphone: " +:+ message)) s
  end.

(** *** utterance.onstart, onend, onerror (lines 484-497) *)
Definition utterance_onstart (s : State) : State := set_isSpeaking true s.

Definition utterance_onend (s : State) : State :=
  set_isSpeaking false
    (set_speechSynthesis (tail <$> speechSynthesis s) s).

Definition utterance_onerror (s : State) : State := set_isSpeaking false s.

(** *** startNewConversation (lines 336-375), after its [fetch] *)
Inductive StartOutcome :=
| StartOk (data_id : string)
| StartFailed.

Definition startNewConversation_failed (s : State) : State :=
  navigate "/auth"
    (set_error
       (Some "Failed to start conversation. Please check your repository settings.")
       s).

Definition startNewConversation_resume (o : StartOutcome) (s : State)
    : State :=
  let s := set_startPending false s in
  match o with
  | StartOk data_id =>
      if is_empty data_id then startNewConversation_failed s
      else set_conversationIdRef (Some data_id) s
  | StartFailed => startNewConversation_failed s
  end.

(** The component after its first render and effects.  [config]: the
    repository configuration is stored; [recognition]: the browser has a
    recognition constructor; [selected]: the voice picked by [loadVoices].
    The browser has [window.speechSynthesis]: without it the effect that
    loads the voices throws at [window.speechSynthesis.getVoices()] (line
    282) and React removes the component, so there is no state to speak
    of. *)
Definition mount (config recognition : bool)
    (vs : list SpeechSynthesisVoice) (selected : option SpeechSynthesisVoice)
    : State :=
  {| messages := []; isListening := false; isSpeaking := false;
     speechRecognition := recognition;
     interimTranscript := ""; finalTranscript := ""; error := None;
     isLoading := false; resetDialogOpen := false;
     finalTranscriptRef := ""; conversationIdRef := None;
     isInitializedRef := true; selectedVoiceRef := selected;
     repoConfig := config; recognizing := false;
     speechSynthesis := Some [];
     voices := vs; startPending := config;
     outstanding := []; mediaRequests := [];
     effects :=
       (if config then [] else [Navigate "/auth"]) ++
       (if recognition then []
        else [Alert "Speech recognition is not supported in your browser"]) ++
       (if config then [FetchStart] else [Navigate "/auth"]) |}.

(** *** The controller as a transition system *)
Inductive Event :=
| ConversationStartReply (o : StartOutcome)
| ClickMic
| MediaReply (i : nat) (o : MediaOutcome)
| RecognitionResult (event : SpeechRecognitionEvent)
| RecognitionEnd
| RecognitionError
| BackendReply (i : nat) (o : FetchOutcome)
| UtteranceStart
| UtteranceEnd
| UtteranceError
| ClickReset
| CancelReset
| ConfirmReset.

Definition step (e : Event) (s : State) : State :=
  match e with
  | ConversationStartReply o => startNewConversation_resume o s
  | ClickMic => toggleListening s
  | MediaReply i o =>
      match mediaRequests s !! i with
      | Some cl =>
          toggleListening_resume cl o
            (set_mediaRequests (delete i (mediaRequests s)) s)
      | None => s
      end
  | RecognitionResult event => onresult event s
  | RecognitionEnd => onend s
  | RecognitionError => onerror s
  | BackendReply i o =>
      match outstanding s !! i with
      | Some _ =>
          handleUserInput_resume o
            (set_outstanding (delete i (outstanding s)) s)
      | None => s
      end
  | UtteranceStart => utterance_onstart s
  | UtteranceEnd => utterance_onend s
  | UtteranceError => utterance_onerror s
  | ClickReset => set_resetDialogOpen true s
  | CancelReset => set_resetDialogOpen false s
  | ConfirmReset => handleReset s
  end.

Definition is_navigate (e : Effect) : bool :=
  match e with Navigate _ => true | _ => false end.

(** The page is still shown: nothing has navigated away from it. *)
Definition mounted (s : State) : bool :=
  forallb (fun e => negb (is_navigate e)) (effects s).

(** What the browser and the user can do in a state.  The microphone
    button is rendered with [disabled={isSpeaking}]. *)
Definition possible (e : Event) (s : State) : bool :=
  match e with
  | ConversationStartReply _ => startPending s
  | ClickMic => mounted s && negb (isSpeaking s)
  | MediaReply i _ => bool_decide (is_Some (mediaRequests s !! i))
  | RecognitionResult _ | RecognitionEnd | RecognitionError => recognizing s
  | BackendReply i _ => bool_decide (is_Some (outstanding s !! i))
  | UtteranceStart | UtteranceEnd =>
      match speechSynthesis s with
      | Some (_ :: _) => true
      | _ => false
      end
  | UtteranceError => bool_decide (is_Some (speechSynthesis s))
  | ClickReset => mounted s
  | CancelReset | ConfirmReset => mounted s && resetDialogOpen s
  end.

Fixpoint run (evs : list Event) (s : State) : option State :=
  match evs with
  | [] => Some s
  | e :: evs => if possible e s then run evs (step e s) else None
  end.

(** The texts of the user Turns and the calls to [recognition.start()]. *)
Definition user_turns (s : State) : list string :=
  text <$> filter (fun m => type m = user) (messages s).

Definition is_start (e : Effect) : bool :=
  match e with RecognitionStart => true | _ => false end.

Definition starts (s : State) : nat :=
  length (filter (fun e => is_start e = true) (effects s)).

(** The fragments an event hands to the two branches of [onresult]. *)
Definition fragments (final : bool) (event : SpeechRecognitionEvent)
    : list string :=
  transcript <$>
    filter (fun r => isFinal r = final)
      (drop (resultIndex event) (results event)).

Definition feed (events : list SpeechRecognitionEvent) (s : State) : State :=
  fold_left (fun s event => onresult event s) events s.

(** *** Vocabulary of the properties *)

Definition finals (events : list SpeechRecognitionEvent) : list string :=
  concat (fragments true <$> events).

Definition interims (events : list SpeechRecognitionEvent) : list string :=
  concat (fragments false <$> events).

Definition items_of (final : bool) (rs : list SpeechRecognitionAlternative)
    : list string :=
  transcript <$> filter (fun r => isFinal r = final) rs.

Definition final_result (t : string) : SpeechRecognitionAlternative :=
  {| transcript := t; isFinal := true |}.

Definition interim_result (t : string) : SpeechRecognitionAlternative :=
  {| transcript := t; isFinal := false |}.

(** A session in which "show" and then "contributors" become final, each
    after a partial hypothesis. *)
Definition show_contributors : list SpeechRecognitionEvent :=
  [ {| results := [interim_result "sho"]; resultIndex := 0 |};
    {| results := [final_result "show"]; resultIndex := 0 |};
    {| results := [final_result "show"; interim_result "contri"];
       resultIndex := 1 |};
    {| results := [final_result "show"; final_result "contributors"];
       resultIndex := 1 |} ].

(** A session whose first final result has an empty transcript. *)
Definition silence_then_a : list SpeechRecognitionEvent :=
  [ {| results := [final_result ""]; resultIndex := 0 |};
    {| results := [final_result ""; final_result "a"]; resultIndex := 1 |} ].

(** A started conversation, before anything is said. *)
Definition started : State :=
  step (ConversationStartReply (StartOk "c1")) (mount true true [] None).

Definition listen : list Event := [ClickMic; MediaReply 0 MediaGranted].

(** The user Turn an end-of-session notification appends. *)
Definition flushed (s : State) : list string :=
  if is_empty (trim (finalTranscriptRef s)) then []
  else [trim (finalTranscriptRef s)].

(** What stopping at a blank transcript leaves untouched. *)
Definition untouched (s s' : State) : Prop :=
  messages s' = messages s /\ error s' = error s
  /\ effects s' = effects s /\ outstanding s' = outstanding s.

(** The texts handed to [speechSynthesis.speak], in order. *)
Definition spoken (s : State) : list string :=
  omap (fun e => match e with SynthSpeak u => Some (u_text u) | _ => None end)
    (effects s).

(** The backend calls a run of [handleUserInput] sends. *)
Definition submitted (t : string) (s : State) : list MessageCall :=
  if is_empty (trim t) || negb (repoConfig s) then []
  else match conversationIdRef s with
       | Some currentConversationId =>
           [{| call_conversation := currentConversationId; call_text := t |}]
       | None => []
       end.

(** One utterance: listen, a final result, stop, end of session. *)
Definition utter (t : string) : list Event :=
  listen
    ++ [RecognitionResult {| results := [final_result t]; resultIndex := 0 |};
        ClickMic; RecognitionEnd].

(** Nothing that captures, plays or waits is touched. *)
Definition activity_kept (s s' : State) : Prop :=
  recognizing s' = recognizing s
  /\ isListening s' = isListening s
  /\ speechSynthesis s' = speechSynthesis s
  /\ isSpeaking s' = isSpeaking s
  /\ outstanding s' = outstanding s
  /\ mediaRequests s' = mediaRequests s.

(** The microphone is clicked while the reply to "hi" is awaited; the reply
    comes and is being spoken before the browser has answered the request
    for the microphone. *)
Definition reply_before_permission : list Event :=
  utter "hi"
    ++ [ClickMic; BackendReply 0 (ResponseOk "hello"); UtteranceStart].

(** A conversation of one exchange, reset while the reply is being spoken
    and the microphone is open again. *)
Definition reset_while_active : list Event :=
  utter "hi"
    ++ listen
    ++ [BackendReply 0 (ResponseOk "hello"); UtteranceStart;
        ClickReset; ConfirmReset].

End SpeechConversation.

(** ** VoiceChat.tsx

  The levels shown by the visualiser ([inputLevel], [outputLevel]) and the
  handler of data-channel messages are left out.  The constructors of
  [RTCPeerConnection] and [AudioContext] can throw; the stream of
  [getUserMedia({ audio: true })] has an audio track, so that
  [createMediaStreamSource] does not. *)

Module VoiceChat.

Inductive Sender := user | assistant.

Record Message := { text : string; sender : Sender; timestamp : nat }.

Inductive TrackKind := audio | video.

#[global] Instance TrackKind_eq_dec : EqDecision TrackKind.
Proof. solve_decision. Defined.

(** [ended]: [readyState] is 'ended', as after [track.stop()]. *)
Record MediaStreamTrack := { kind : TrackKind; enabled : bool; ended : bool }.

Inductive RTCPeerConnectionState :=
| new | connecting | connected | disconnected | failed | closed.

#[global] Instance RTCPeerConnectionState_eq_dec :
  EqDecision RTCPeerConnectionState.
Proof. solve_decision. Defined.

(** A sender holds a track, by its position in the store, or null. *)
Record RTCPeerConnection := {
  senders : list (option nat);
  connectionState : RTCPeerConnectionState;
  localDescription : option string;
  remoteDescription : option string
}.

Record AudioContext := { context_closed : bool }.

Record MediaStreamAudioSourceNode := { node_connected : bool }.

(** Bodies POSTed to [/webrtc/offer]. *)
Inductive SignalingMessage :=
| OfferMessage (sdp : option string) (webrtc_id : string)
| IceCandidateMessage (candidate : string) (webrtc_id : string).

(** Where a run of [setupWebRTC] is suspended. *)
Inductive SetupStage :=
| AwaitMedia
| AwaitOffer
| AwaitLocalDescription (p : nat) (sdp : string)
| AwaitAnswer
| AwaitRemoteDescription (p : nat) (answer : string).

Record State := {
  (* useState *)
  isRecording : bool;
  isMuted : bool;
  selectedVoice : string;
  error : option string;
  rtcConfig : option string;
  isLoading : bool;
  messages : list Message;
  isConnected : bool;
  isListening : bool;
  (* useRef: a position in the store of the browser, or null *)
  peerConnectionRef : option nat;
  audioContextRef : option nat;
  dataChannelRef : bool;
  webrtcIdRef : string;
  analyserInputRef : bool;
  analyserOutputRef : bool;
  sourceInputRef : option nat;
  sourceOutputRef : option nat;
  (* props *)
  apiKey : string;
  (* browser *)
  tracks : list MediaStreamTrack;
  connections : list RTCPeerConnection;
  contexts : list AudioContext;
  sources : list MediaStreamAudioSourceNode;
  sent : list SignalingMessage;
  setup : option SetupStage
}.

Definition set_isRecording (v : bool) (s : State) : State :=
  {| isRecording := v; isMuted := isMuted s;
     selectedVoice := selectedVoice s; error := error s;
     rtcConfig := rtcConfig s; isLoading := isLoading s;
     messages := messages s; isConnected := isConnected s;
     isListening := isListening s; peerConnectionRef := peerConnectionRef s;
     audioContextRef := audioContextRef s;
     dataChannelRef := dataChannelRef s; webrtcIdRef := webrtcIdRef s;
     analyserInputRef := analyserInputRef s;
     analyserOutputRef := analyserOutputRef s;
     sourceInputRef := sourceInputRef s;
     sourceOutputRef := sourceOutputRef s; apiKey := apiKey s;
     tracks := tracks s; connections := connections s;
     contexts := contexts s; sources := sources s; sent := sent s;
     setup := setup s |}.

Definition set_isMuted (v : bool) (s : State) : State :=
  {| isRecording := isRecording s; isMuted := v;
     selectedVoice := selectedVoice s; error := error s;
     rtcConfig := rtcConfig s; isLoading := isLoading s;
     messages := messages s; isConnected := isConnected s;
     isListening := isListening s; peerConnectionRef := peerConnectionRef s;
     audioContextRef := audioContextRef s;
     dataChannelRef := dataChannelRef s; webrtcIdRef := webrtcIdRef s;
     analyserInputRef := analyserInputRef s;
     analyserOutputRef := analyserOutputRef s;
     sourceInputRef := sourceInputRef s;
     sourceOutputRef := sourceOutputRef s; apiKey := apiKey s;
     tracks := tracks s; connections := connections s;
     contexts := contexts s; sources := sources s; sent := sent s;
     setup := setup s |}.

Definition set_error (v : option string) (s : State) : State :=
  {| isRecording := isRecording s; isMuted := isMuted s;
     selectedVoice := selectedVoice s; error := v; rtcConfig := rtcConfig s;
     isLoading := isLoading s; messages := messages s;
     isConnected := isConnected s; isListening := isListening s;
     peerConnectionRef := peerConnectionRef s;
     audioContextRef := audioContextRef s;
     dataChannelRef := dataChannelRef s; webrtcIdRef := webrtcIdRef s;
     analyserInputRef := analyserInputRef s;
     analyserOutputRef := analyserOutputRef s;
     sourceInputRef := sourceInputRef s;
     sourceOutputRef := sourceOutputRef s; apiKey := apiKey s;
     tracks := tracks s; connections := connections s;
     contexts := contexts s; sources := sources s; sent := sent s;
     setup := setup s |}.

Definition set_rtcConfig (v : option string) (s : State) : State :=
  {| isRecording := isRecording s; isMuted := isMuted s;
     selectedVoice := selectedVoice s; error := error s; rtcConfig := v;
     isLoading := isLoading s; messages := messages s;
     isConnected := isConnected s; isListening := isListening s;
     peerConnectionRef := peerConnectionRef s;
     audioContextRef := audioContextRef s;
     dataChannelRef := dataChannelRef s; webrtcIdRef := webrtcIdRef s;
     analyserInputRef := analyserInputRef s;
     analyserOutputRef := analyserOutputRef s;
     sourceInputRef := sourceInputRef s;
     sourceOutputRef := sourceOutputRef s; apiKey := apiKey s;
     tracks := tracks s; connections := connections s;
     contexts := contexts s; sources := sources s; sent := sent s;
     setup := setup s |}.

Definition set_isLoading (v : bool) (s : State) : State :=
  {| isRecording := isRecording s; isMuted := isMuted s;
     selectedVoice := selectedVoice s; error := error s;
     rtcConfig := rtcConfig s; isLoading := v; messages := messages s;
     isConnected := isConnected s; isListening := isListening s;
     peerConnectionRef := peerConnectionRef s;
     audioContextRef := audioContextRef s;
     dataChannelRef := dataChannelRef s; webrtcIdRef := webrtcIdRef s;
     analyserInputRef := analyserInputRef s;
     analyserOutputRef := analyserOutputRef s;
     sourceInputRef := sourceInputRef s;
     sourceOutputRef := sourceOutputRef s; apiKey := apiKey s;
     tracks := tracks s; connections := connections s;
     contexts := contexts s; sources := sources s; sent := sent s;
     setup := setup s |}.

Definition set_isConnected (v : bool) (s : State) : State :=
  {| isRecording := isRecording s; isMuted := isMuted s;
     selectedVoice := selectedVoice s; error := error s;
     rtcConfig := rtcConfig s; isLoading := isLoading s;
     messages := messages s; isConnected := v; isListening := isListening s;
     peerConnectionRef := peerConnectionRef s;
     audioContextRef := audioContextRef s;
     dataChannelRef := dataChannelRef s; webrtcIdRef := webrtcIdRef s;
     analyserInputRef := analyserInputRef s;
     analyserOutputRef := analyserOutputRef s;
     sourceInputRef := sourceInputRef s;
     sourceOutputRef := sourceOutputRef s; apiKey := apiKey s;
     tracks := tracks s; connections := connections s;
     contexts := contexts s; sources := sources s; sent := sent s;
     setup := setup s |}.

Definition set_peerConnectionRef (v : option nat) (s : State) : State :=
  {| isRecording := isRecording s; isMuted := isMuted s;
     selectedVoice := selectedVoice s; error := error s;
     rtcConfig := rtcConfig s; isLoading := isLoading s;
     messages := messages s; isConnected := isConnected s;
     isListening := isListening s; peerConnectionRef := v;
     audioContextRef := audioContextRef s;
     dataChannelRef := dataChannelRef s; webrtcIdRef := webrtcIdRef s;
     analyserInputRef := analyserInputRef s;
     analyserOutputRef := analyserOutputRef s;
     sourceInputRef := sourceInputRef s;
     sourceOutputRef := sourceOutputRef s; apiKey := apiKey s;
     tracks := tracks s; connections := connections s;
     contexts := contexts s; sources := sources s; sent := sent s;
     setup := setup s |}.

Definition set_audioContextRef (v : option nat) (s : State) : State :=
  {| isRecording := isRecording s; isMuted := isMuted s;
     selectedVoice := selectedVoice s; error := error s;
     rtcConfig := rtcConfig s; isLoading := isLoading s;
     messages := messages s; isConnected := isConnected s;
     isListening := isListening s; peerConnectionRef := peerConnectionRef s;
     audioContextRef := v; dataChannelRef := dataChannelRef s;
     webrtcIdRef := webrtcIdRef s; analyserInputRef := analyserInputRef s;
     analyserOutputRef := analyserOutputRef s;
     sourceInputRef := sourceInputRef s;
     sourceOutputRef := sourceOutputRef s; apiKey := apiKey s;
     tracks := tracks s; connections := connections s;
     contexts := contexts s; sources := sources s; sent := sent s;
     setup := setup s |}.

Definition set_dataChannelRef (v : bool) (s : State) : State :=
  {| isRecording := isRecording s; isMuted := isMuted s;
     selectedVoice := selectedVoice s; error := error s;
     rtcConfig := rtcConfig s; isLoading := isLoading s;
     messages := messages s; isConnected := isConnected s;
     isListening := isListening s; peerConnectionRef := peerConnectionRef s;
     audioContextRef := audioContextRef s; dataChannelRef := v;
     webrtcIdRef := webrtcIdRef s; analyserInputRef := analyserInputRef s;
     analyserOutputRef := analyserOutputRef s;
     sourceInputRef := sourceInputRef s;
     sourceOutputRef := sourceOutputRef s; apiKey := apiKey s;
     tracks := tracks s; connections := connections s;
     contexts := contexts s; sources := sources s; sent := sent s;
     setup := setup s |}.

Definition set_webrtcIdRef (v : string) (s : State) : State :=
  {| isRecording := isRecording s; isMuted := isMuted s;
     selectedVoice := selectedVoice s; error := error s;
     rtcConfig := rtcConfig s; isLoading := isLoading s;
     messages := messages s; isConnected := isConnected s;
     isListening := isListening s; peerConnectionRef := peerConnectionRef s;
     audioContextRef := audioContextRef s;
     dataChannelRef := dataChannelRef s; webrtcIdRef := v;
     analyserInputRef := analyserInputRef s;
     analyserOutputRef := analyserOutputRef s;
     sourceInputRef := sourceInputRef s;
     sourceOutputRef := sourceOutputRef s; apiKey := apiKey s;
     tracks := tracks s; connections := connections s;
     contexts := contexts s; sources := sources s; sent := sent s;
     setup := setup s |}.

Definition set_analyserInputRef (v : bool) (s : State) : State :=
  {| isRecording := isRecording s; isMuted := isMuted s;
     selectedVoice := selectedVoice s; error := error s;
     rtcConfig := rtcConfig s; isLoading := isLoading s;
     messages := messages s; isConnected := isConnected s;
     isListening := isListening s; peerConnectionRef := peerConnectionRef s;
     audioContextRef := audioContextRef s;
     dataChannelRef := dataChannelRef s; webrtcIdRef := webrtcIdRef s;
     analyserInputRef := v; analyserOutputRef := analyserOutputRef s;
     sourceInputRef := sourceInputRef s;
     sourceOutputRef := sourceOutputRef s; apiKey := apiKey s;
     tracks := tracks s; connections := connections s;
     contexts := contexts s; sources := sources s; sent := sent s;
     setup := setup s |}.

Definition set_analyserOutputRef (v : bool) (s : State) : State :=
  {| isRecording := isRecording s; isMuted := isMuted s;
     selectedVoice := selectedVoice s; error := error s;
     rtcConfig := rtcConfig s; isLoading := isLoading s;
     messages := messages s; isConnected := isConnected s;
     isListening := isListening s; peerConnectionRef := peerConnectionRef s;
     audioContextRef := audioContextRef s;
     dataChannelRef := dataChannelRef s; webrtcIdRef := webrtcIdRef s;
     analyserInputRef := analyserInputRef s; analyserOutputRef := v;
     sourceInputRef := sourceInputRef s;
     sourceOutputRef := sourceOutputRef s; apiKey := apiKey s;
     tracks := tracks s; connections := connections s;
     contexts := contexts s; sources := sources s; sent := sent s;
     setup := setup s |}.

Definition set_sourceInputRef (v : option nat) (s : State) : State :=
  {| isRecording := isRecording s; isMuted := isMuted s;
     selectedVoice := selectedVoice s; error := error s;
     rtcConfig := rtcConfig s; isLoading := isLoading s;
     messages := messages s; isConnected := isConnected s;
     isListening := isListening s; peerConnectionRef := peerConnectionRef s;
     audioContextRef := audioContextRef s;
     dataChannelRef := dataChannelRef s; webrtcIdRef := webrtcIdRef s;
     analyserInputRef := analyserInputRef s;
     analyserOutputRef := analyserOutputRef s; sourceInputRef := v;
     sourceOutputRef := sourceOutputRef s; apiKey := apiKey s;
     tracks := tracks s; connections := connections s;
     contexts := contexts s; sources := sources s; sent := sent s;
     setup := setup s |}.

Definition set_sourceOutputRef (v : option nat) (s : State) : State :=
  {| isRecording := isRecording s; isMuted := isMuted s;
     selectedVoice := selectedVoice s; error := error s;
     rtcConfig := rtcConfig s; isLoading := isLoading s;
     messages := messages s; isConnected := isConnected s;
     isListening := isListening s; peerConnectionRef := peerConnectionRef s;
     audioContextRef := audioContextRef s;
     dataChannelRef := dataChannelRef s; webrtcIdRef := webrtcIdRef s;
     analyserInputRef := analyserInputRef s;
     analyserOutputRef := analyserOutputRef s;
     sourceInputRef := sourceInputRef s; sourceOutputRef := v;
     apiKey := apiKey s; tracks := tracks s; connections := connections s;
     contexts := contexts s; sources := sources s; sent := sent s;
     setup := setup s |}.

Definition set_tracks (v : list MediaStreamTrack) (s : State) : State :=
  {| isRecording := isRecording s; isMuted := isMuted s;
     selectedVoice := selectedVoice s; error := error s;
     rtcConfig := rtcConfig s; isLoading := isLoading s;
     messages := messages s; isConnected := isConnected s;
     isListening := isListening s; peerConnectionRef := peerConnectionRef s;
     audioContextRef := audioContextRef s;
     dataChannelRef := dataChannelRef s; webrtcIdRef := webrtcIdRef s;
     analyserInputRef := analyserInputRef s;
     analyserOutputRef := analyserOutputRef s;
     sourceInputRef := sourceInputRef s;
     sourceOutputRef := sourceOutputRef s; apiKey := apiKey s; tracks := v;
     connections := connections s; contexts := contexts s;
     sources := sources s; sent := sent s; setup := setup s |}.

Definition set_connections (v : list RTCPeerConnection) (s : State) : State :=
  {| isRecording := isRecording s; isMuted := isMuted s;
     selectedVoice := selectedVoice s; error := error s;
     rtcConfig := rtcConfig s; isLoading := isLoading s;
     messages := messages s; isConnected := isConnected s;
     isListening := isListening s; peerConnectionRef := peerConnectionRef s;
     audioContextRef := audioContextRef s;
     dataChannelRef := dataChannelRef s; webrtcIdRef := webrtcIdRef s;
     analyserInputRef := analyserInputRef s;
     analyserOutputRef := analyserOutputRef s;
     sourceInputRef := sourceInputRef s;
     sourceOutputRef := sourceOutputRef s; apiKey := apiKey s;
     tracks := tracks s; connections := v; contexts := contexts s;
     sources := sources s; sent := sent s; setup := setup s |}.

Definition set_contexts (v : list AudioContext) (s : State) : State :=
  {| isRecording := isRecording s; isMuted := isMuted s;
     selectedVoice := selectedVoice s; error := error s;
     rtcConfig := rtcConfig s; isLoading := isLoading s;
     messages := messages s; isConnected := isConnected s;
     isListening := isListening s; peerConnectionRef := peerConnectionRef s;
     audioContextRef := audioContextRef s;
     dataChannelRef := dataChannelRef s; webrtcIdRef := webrtcIdRef s;
     analyserInputRef := analyserInputRef s;
     analyserOutputRef := analyserOutputRef s;
     sourceInputRef := sourceInputRef s;
     sourceOutputRef := sourceOutputRef s; apiKey := apiKey s;
     tracks := tracks s; connections := connections s; contexts := v;
     sources := sources s; sent := sent s; setup := setup s |}.

Definition set_sources (v : list MediaStreamAudioSourceNode) (s : State) : State :=
  {| isRecording := isRecording s; isMuted := isMuted s;
     selectedVoice := selectedVoice s; error := error s;
     rtcConfig := rtcConfig s; isLoading := isLoading s;
     messages := messages s; isConnected := isConnected s;
     isListening := isListening s; peerConnectionRef := peerConnectionRef s;
     audioContextRef := audioContextRef s;
     dataChannelRef := dataChannelRef s; webrtcIdRef := webrtcIdRef s;
     analyserInputRef := analyserInputRef s;
     analyserOutputRef := analyserOutputRef s;
     sourceInputRef := sourceInputRef s;
     sourceOutputRef := sourceOutputRef s; apiKey := apiKey s;
     tracks := tracks s; connections := connections s;
     contexts := contexts s; sources := v; sent := sent s;
     setup := setup s |}.

Definition set_sent (v : list SignalingMessage) (s : State) : State :=
  {| isRecording := isRecording s; isMuted := isMuted s;
     selectedVoice := selectedVoice s; error := error s;
     rtcConfig := rtcConfig s; isLoading := isLoading s;
     messages := messages s; isConnected := isConnected s;
     isListening := isListening s; peerConnectionRef := peerConnectionRef s;
     audioContextRef := audioContextRef s;
     dataChannelRef := dataChannelRef s; webrtcIdRef := webrtcIdRef s;
     analyserInputRef := analyserInputRef s;
     analyserOutputRef := analyserOutputRef s;
     sourceInputRef := sourceInputRef s;
     sourceOutputRef := sourceOutputRef s; apiKey := apiKey s;
     tracks := tracks s; connections := connections s;
     contexts := contexts s; sources := sources s; sent := v;
     setup := setup s |}.

Definition set_setup (v : option SetupStage) (s : State) : State :=
  {| isRecording := isRecording s; isMuted := isMuted s;
     selectedVoice := selectedVoice s; error := error s;
     rtcConfig := rtcConfig s; isLoading := isLoading s;
     messages := messages s; isConnected := isConnected s;
     isListening := isListening s; peerConnectionRef := peerConnectionRef s;
     audioContextRef := audioContextRef s;
     dataChannelRef := dataChannelRef s; webrtcIdRef := webrtcIdRef s;
     analyserInputRef := analyserInputRef s;
     analyserOutputRef := analyserOutputRef s;
     sourceInputRef := sourceInputRef s;
     sourceOutputRef := sourceOutputRef s; apiKey := apiKey s;
     tracks := tracks s; connections := connections s;
     contexts := contexts s; sources := sources s; sent := sent s;
     setup := v |}.

(** *** stopWebRTC (lines 270-298) *)

(** [forEach] over senders with a body guarded by [if (sender.track)]:
    [f] is applied, in the store, to the track of every sender that has one. *)
Definition alter_sender (f : MediaStreamTrack -> MediaStreamTrack)
    (ts : list MediaStreamTrack) (sender : option nat)
    : list MediaStreamTrack :=
  match sender with
  | Some t => alter f t ts
  | None => ts
  end.

(** [peerConnectionRef.current.getSenders()], for the ref [Some p]. *)
Definition getSenders (s : State) (p : nat) : list (option nat) :=
  match connections s !! p with
  | Some pc => senders pc
  | None => []
  end.

Definition stop (t : MediaStreamTrack) : MediaStreamTrack :=
  {| kind := kind t; enabled := enabled t; ended := true |}.

Definition close (pc : RTCPeerConnection) : RTCPeerConnection :=
  {| senders := senders pc; connectionState := closed;
     localDescription := localDescription pc;
     remoteDescription := remoteDescription pc |}.

(** The four guarded blocks of the function, in order. *)
Definition close_peerConnection (s : State) : State :=
  match peerConnectionRef s with
  | Some p =>
      set_peerConnectionRef None
        (set_connections (alter close p (connections s))
           (set_tracks
              (fold_left (alter_sender stop) (getSenders s p) (tracks s)) s))
  | None => s
  end.

Definition close_audioContext (s : State) : State :=
  match audioContextRef s with
  | Some c =>
      set_audioContextRef None
        (set_contexts
           (alter (fun _ => {| context_closed := true |}) c (contexts s)) s)
  | None => s
  end.

Definition disconnect_sourceInput (s : State) : State :=
  match sourceInputRef s with
  | Some n =>
      set_sourceInputRef None
        (set_sources
           (alter (fun _ => {| node_connected := false |}) n (sources s)) s)
  | None => s
  end.

Definition disconnect_sourceOutput (s : State) : State :=
  match sourceOutputRef s with
  | Some n =>
      set_sourceOutputRef None
        (set_sources
           (alter (fun _ => {| node_connected := false |}) n (sources s)) s)
  | None => s
  end.

Definition stopWebRTC (s : State) : State :=
  set_isMuted false
    (set_isRecording false
       (disconnect_sourceOutput
          (disconnect_sourceInput
             (close_audioContext (close_peerConnection s))))).

(** *** toggleMute (lines 300-310) *)
Definition set_enabled (v : bool) (t : MediaStreamTrack) : MediaStreamTrack :=
  {| kind := kind t; enabled := v; ended := ended t |}.

(** The body of the loop: [enabled] is written on audio tracks only. *)
Definition mute_track (newMutedState : bool) (track : MediaStreamTrack)
    : MediaStreamTrack :=
  if bool_decide (kind track = audio)
  then set_enabled (negb newMutedState) track
  else track.

Definition toggleMute (s : State) : State :=
  match peerConnectionRef s with
  | Some p =>
      let newMutedState := negb (isMuted s) in
      set_isMuted newMutedState
        (set_tracks
           (fold_left (alter_sender (mute_track newMutedState))
              (getSenders s p) (tracks s)) s)
  | None => s
  end.

(** *** handleIceCandidate (lines 197-213)

    The outcome of the [fetch] is not looked at: a rejection is logged. *)
Definition handleIceCandidate (candidate : option string) (s : State)
    : State :=
  match candidate with
  | Some c => set_sent (sent s ++ [IceCandidateMessage c (webrtcIdRef s)]) s
  | None => s
  end.

(** *** handleTrack (lines 215-228) *)
Definition handleTrack (k : TrackKind) (s : State) : State :=
  match k, audioContextRef s with
  | audio, Some _ =>
      set_analyserOutputRef true
        (set_sourceOutputRef (Some (length (sources s)))
           (set_sources (sources s ++ [{| node_connected := true |}]) s))
  | _, _ => s
  end.

(** *** handleConnectionStateChange (lines 230-239) *)
Definition handleConnectionStateChange (s : State) : State :=
  match peerConnectionRef s with
  | Some p =>
      match connections s !! p with
      | Some pc =>
          let state := connectionState pc in
          let s := set_isConnected (bool_decide (state = connected)) s in
          if bool_decide (state ∈ [disconnected; failed; closed])
          then stopWebRTC s
          else s
      | None => s
      end
  | None => s
  end.

(** *** setupWebRTC (lines 131-195)

    [setupWebRTC] runs up to [await getUserMedia]; [setupWebRTC_resume]
    runs one continuation, chosen by the stage, on the outcome of what was
    awaited.  [setupWebRTC_failed] is the [catch] followed by the
    [finally]. *)
Definition setupWebRTC (s : State) : State :=
  if is_empty (apiKey s)
  then set_error
         (Some "Please provide a valid Gemini API key in your .env file") s
  else set_setup (Some AwaitMedia) (set_error None (set_isLoading true s)).

Definition setupWebRTC_failed (message : string) (s : State) : State :=
  set_setup None
    (set_isLoading false (stopWebRTC (set_error (Some message) s))).

(** What the browser answers to a suspended [setupWebRTC].  The first three
    are for [getUserMedia] resolving with a stream: in [MediaStream] the code
    then runs on to [createOffer], in [PeerConnectionThrows]
    [new RTCPeerConnection(config)] throws (line 144: the configuration is
    what the backend sent), in [AudioContextThrows] [new AudioContext()]
    does (line 152). *)
Inductive SetupOutcome :=
| MediaStream (audio_tracks : nat) (random_id : string)
| PeerConnectionThrows (audio_tracks : nat) (random_id : string)
    (message : string)
| AudioContextThrows (audio_tracks : nat) (random_id : string)
    (message : string)
| OfferCreated (sdp : string)
| LocalDescriptionSet
| AnswerOk (answer : string)
| AnswerNotOk (detail : option string)
| RemoteDescriptionSet
| Rejected (message : string).

(** Reading [property] of [peerConnectionRef.current] when it is null,
    in the words of V8; other engines word the [TypeError] differently. *)
Definition null_reference (property : string) : string :=
  "Cannot read properties of null (reading '" +:+ property +:+ "')".

Definition live_track : MediaStreamTrack :=
  {| kind := audio; enabled := true; ended := false |}.

(** Lines 140-141: the tracks of the stream come into being, and
    [Math.random] gives the identifier. *)
Definition media_granted (audio_tracks : nat) (random_id : string)
    (s : State) : State :=
  set_webrtcIdRef random_id
    (set_tracks (tracks s ++ replicate audio_tracks live_track) s).

(** Lines 143-149: the connection, with a sender for each track of
    [stream]. *)
Definition new_peerConnection (stream : list nat) (s : State) : State :=
  set_peerConnectionRef (Some (length (connections s)))
    (set_connections
       (connections s
          ++ [{| senders := Some <$> stream; connectionState := new;
                 localDescription := None; remoteDescription := None |}])
       s).

(** Lines 152-156: the audio context, the source of the stream and its
    analyser. *)
Definition new_audioContext (s : State) : State :=
  let s :=
    set_audioContextRef (Some (length (contexts s)))
      (set_contexts (contexts s ++ [{| context_closed := false |}]) s) in
  set_analyserInputRef true
    (set_sourceInputRef (Some (length (sources s)))
       (set_sources (sources s ++ [{| node_connected := true |}]) s)).

Definition setupWebRTC_media (audio_tracks : nat) (random_id : string)
    (s : State) : State :=
  let stream := seq (length (tracks s)) audio_tracks in
  set_setup (Some AwaitOffer)
    (set_dataChannelRef true
       (new_audioContext
          (new_peerConnection stream
             (media_granted audio_tracks random_id s)))).

Definition set_localDescription (sdp : string) (pc : RTCPeerConnection)
    : RTCPeerConnection :=
  {| senders := senders pc; connectionState := connectionState pc;
     localDescription := Some sdp;
     remoteDescription := remoteDescription pc |}.

Definition set_remoteDescription (sdp : string) (pc : RTCPeerConnection)
    : RTCPeerConnection :=
  {| senders := senders pc; connectionState := connectionState pc;
     localDescription := localDescription pc;
     remoteDescription := Some sdp |}.

Definition setupWebRTC_resume (o : SetupOutcome) (s : State) : State :=
  match setup s, o with
  | Some _, Rejected message => setupWebRTC_failed message s
  | Some AwaitMedia, MediaStream audio_tracks random_id =>
      setupWebRTC_media audio_tracks random_id s
  | Some AwaitMedia, PeerConnectionThrows audio_tracks random_id message =>
      setupWebRTC_failed message (media_granted audio_tracks random_id s)
  | Some AwaitMedia, AudioContextThrows audio_tracks random_id message =>
      let stream := seq (length (tracks s)) audio_tracks in
      setupWebRTC_failed message
        (new_peerConnection stream (media_granted audio_tracks random_id s))
  | Some AwaitOffer, OfferCreated sdp =>
      match peerConnectionRef s with
      | Some p => set_setup (Some (AwaitLocalDescription p sdp)) s
      | None => setupWebRTC_failed (null_reference "setLocalDescription") s
      end
  | Some (AwaitLocalDescription p sdp), LocalDescriptionSet =>
      let s :=
        set_connections (alter (set_localDescription sdp) p (connections s))
          s in
      match peerConnectionRef s with
      | Some q =>
          set_setup (Some AwaitAnswer)
            (set_sent
               (sent s
                  ++ [OfferMessage
                        (connections s !! q ≫= localDescription)
                        (webrtcIdRef s)])
               s)
      | None => setupWebRTC_failed (null_reference "localDescription") s
      end
  | Some AwaitAnswer, AnswerNotOk detail =>
      setupWebRTC_failed
        (or_else detail "Failed to establish WebRTC connection") s
  | Some AwaitAnswer, AnswerOk answer =>
      match peerConnectionRef s with
      | Some p => set_setup (Some (AwaitRemoteDescription p answer)) s
      | None => setupWebRTC_failed (null_reference "setRemoteDescription") s
      end
  | Some (AwaitRemoteDescription p answer), RemoteDescriptionSet =>
      set_setup None
        (set_isLoading false
           (set_isRecording true
              (set_connections
                 (alter (set_remoteDescription answer) p (connections s))
                 s)))
  | _, _ => s
  end.

(** *** fetchRTCConfig (lines 66-91) and the component once mounted *)
Inductive ConfigOutcome :=
| ConfigOk (rtc_config : option string)
| ConfigFailed (message : string).

Definition fetchRTCConfig_resume (o : ConfigOutcome) (s : State) : State :=
  set_isLoading false
    match o with
    | ConfigOk rtc_config => set_rtcConfig rtc_config s
    | ConfigFailed message => set_error (Some message) s
    end.

Definition mount (key : string) : State :=
  {| isRecording := false; isMuted := false; selectedVoice := "Puck";
     error := None; rtcConfig := None; isLoading := true; messages := [];
     isConnected := false; isListening := false;
     peerConnectionRef := None; audioContextRef := None;
     dataChannelRef := false; webrtcIdRef := "";
     analyserInputRef := false; analyserOutputRef := false;
     sourceInputRef := None; sourceOutputRef := None; apiKey := key;
     tracks := []; connections := []; contexts := []; sources := [];
     sent := []; setup := None |}.

(** *** The controller as a transition system *)
Inductive Event :=
| RtcConfigReply (o : ConfigOutcome)
| ClickMain
| SetupReply (o : SetupOutcome)
| IceCandidate (p : nat) (candidate : option string)
| Track (k : TrackKind)
| ConnectionStateChange (p : nat) (state : RTCPeerConnectionState)
| ClickMute
| Unmount.

Definition set_connectionState (state : RTCPeerConnectionState)
    (pc : RTCPeerConnection) : RTCPeerConnection :=
  {| senders := senders pc; connectionState := state;
     localDescription := localDescription pc;
     remoteDescription := remoteDescription pc |}.

Definition step (e : Event) (s : State) : State :=
  match e with
  | RtcConfigReply o => fetchRTCConfig_resume o s
  | ClickMain => if isRecording s then stopWebRTC s else setupWebRTC s
  | SetupReply o => setupWebRTC_resume o s
  | IceCandidate _ candidate => handleIceCandidate candidate s
  | Track k => handleTrack k s
  | ConnectionStateChange p state =>
      handleConnectionStateChange
        (set_connections (alter (set_connectionState state) p (connections s))
           s)
  | ClickMute => toggleMute s
  | Unmount => stopWebRTC s
  end.

(** The outcome a stage waits for, or a rejection.  A stream has at least
    one track. *)
Definition expects (stage : SetupStage) (o : SetupOutcome) : bool :=
  match stage, o with
  | AwaitMedia,
    (MediaStream audio_tracks _ | PeerConnectionThrows audio_tracks _ _
     | AudioContextThrows audio_tracks _ _) =>
      negb (Nat.eqb audio_tracks 0)
  | _, Rejected _
  | AwaitOffer, OfferCreated _
  | AwaitLocalDescription _ _, LocalDescriptionSet
  | AwaitAnswer, (AnswerOk _ | AnswerNotOk _)
  | AwaitRemoteDescription _ _, RemoteDescriptionSet => true
  | _, _ => false
  end.

(** A connection that still raises events: it exists and is not closed. *)
Definition open (s : State) (p : nat) : bool :=
  match connections s !! p with
  | Some pc => negb (bool_decide (connectionState pc = closed))
  | None => false
  end.

(** Candidates are gathered once the local description is set. *)
Definition gathering (s : State) (p : nat) : bool :=
  open s p
  && bool_decide (is_Some (connections s !! p ≫= localDescription)).

(** The main button is rendered with
    [disabled={isLoading || !rtcConfig || !apiKey}], the mute button only
    while recording. *)
Definition possible (e : Event) (s : State) : bool :=
  match e with
  | RtcConfigReply _ =>
      isLoading s && bool_decide (setup s = None)
      && bool_decide (rtcConfig s = None)
  | ClickMain =>
      negb (isLoading s) && bool_decide (is_Some (rtcConfig s))
      && negb (is_empty (apiKey s))
  | SetupReply o =>
      match setup s with
      | Some stage => expects stage o
      | None => false
      end
  | IceCandidate p _ => gathering s p
  | Track _ => bool_decide (is_Some (peerConnectionRef s))
  | ConnectionStateChange p state =>
      open s p && negb (bool_decide (state = closed))
  | ClickMute => isRecording s
  | Unmount => true
  end.

Fixpoint run (evs : list Event) (s : State) : option State :=
  match evs with
  | [] => Some s
  | e :: evs => if possible e s then run evs (step e s) else None
  end.

(** *** Vocabulary of the properties *)

(** What [stopWebRTC] has released, of what the refs pointed to. *)
Definition torn_down (before after : State) : Prop :=
  peerConnectionRef after = None /\ audioContextRef after = None
  /\ sourceInputRef after = None /\ sourceOutputRef after = None
  /\ isRecording after = false /\ isMuted after = false
  /\ (forall p t,
        peerConnectionRef before = Some p ->
        Some t ∈ getSenders before p ->
        ended <$> tracks after !! t = (fun _ => true) <$> tracks before !! t)
  /\ (forall p,
        peerConnectionRef before = Some p ->
        connectionState <$> connections after !! p
        = (fun _ => closed) <$> connections before !! p)
  /\ (forall c,
        audioContextRef before = Some c ->
        context_closed <$> contexts after !! c
        = (fun _ => true) <$> contexts before !! c)
  /\ (forall n,
        sourceInputRef before = Some n \/ sourceOutputRef before = Some n ->
        node_connected <$> sources after !! n
        = (fun _ => false) <$> sources before !! n).

Definition disconnect_ref (ref : option nat)
    (l : list MediaStreamAudioSourceNode) : list MediaStreamAudioSourceNode :=
  match ref with
  | Some n => alter (fun _ => {| node_connected := false |}) n l
  | None => l
  end.

(** A call set up to the point where the offer has been posted. *)
Definition offer_posted : list Event :=
  [ RtcConfigReply (ConfigOk (Some "{}")); ClickMain;
    SetupReply (MediaStream 1 "k3x9f"); SetupReply (OfferCreated "v=0 offer");
    SetupReply LocalDescriptionSet ].

(** The same call, answered and connected. *)
Definition call_connected : list Event :=
  offer_posted
    ++ [ SetupReply (AnswerOk "v=0 answer"); SetupReply RemoteDescriptionSet;
         Track audio; ConnectionStateChange 0 connected ].

(** The backend sends a configuration the browser does not accept: the
    microphone is granted and the constructor of the connection throws. *)
Definition connection_refused : list Event :=
  [ RtcConfigReply (ConfigOk (Some "{iceServers: [{urls: 'ftp://example.org'}]}"));
    ClickMain;
    SetupReply
      (PeerConnectionThrows 1 "k3x9f"
         "Failed to construct 'RTCPeerConnection'") ].

(** Every local track that has not ended is held by a sender of the
    connection the ref points to. *)
Definition held (s : State) : Prop :=
  forall t track,
    tracks s !! t = Some track -> ended track = false ->
    exists p, peerConnectionRef s = Some p /\ Some t ∈ getSenders s p.

(** No local track is live. *)
Definition released (s : State) : Prop :=
  Forall (fun track => ended track = true) (tracks s).

End VoiceChat.

(** ** Runs of the speech controller *)

Module SpeechRuns.

Import SpeechConversation.

(** A state that differs from [s] in the transcript buffers only. *)
Definition with_transcripts (interim final ref : string) (s : State) : State :=
  set_interimTranscript interim
    (set_finalTranscript final (set_finalTranscriptRef ref s)).

(** The session identifiers of the message calls among some effects. *)
Definition fetch_ids (l : list Effect) : list string :=
  omap (fun e => match e with FetchMessage c _ => Some c | _ => None end) l.

(** The identifiers the backend gave in answer to
    [/api/conversation/start]. *)
Definition started_ids (evs : list Event) : list string :=
  omap (fun e => match e with
                 | ConversationStartReply (StartOk data_id) => Some data_id
                 | _ => None
                 end) evs.

Definition is_end (e : Event) : bool :=
  match e with RecognitionEnd => true | _ => false end.

Definition is_reply (e : Event) : bool :=
  match e with BackendReply _ _ => true | _ => false end.

Definition ends (evs : list Event) : nat :=
  length (filter (fun e => is_end e = true) evs).

Definition replies (evs : list Event) : nat :=
  length (filter (fun e => is_reply e = true) evs).

Definition turns_of (who : MessageType) (l : list Message) : list Message :=
  filter (fun m => type m = who) l.

(** What the synthesiser still has to say. *)
Definition queue (s : State) : list SpeechSynthesisUtterance :=
  default [] (speechSynthesis s).

(** The browser has no recognition engine: the state holds none, and no
    pending microphone request was made with one. *)
Definition deaf (s : State) : Prop :=
  speechRecognition s = false /\ recognizing s = false
  /\ isListening s = false
  /\ Forall (fun cl => cl_speechRecognition cl = false) (mediaRequests s).

(** Shown, silent, with a recognition engine at rest and empty buffers. *)
Definition idle (s : State) : Prop :=
  mounted s = true /\ isSpeaking s = false /\ isListening s = false
  /\ speechRecognition s = true /\ recognizing s = false
  /\ mediaRequests s = [] /\ finalTranscriptRef s = "".

(** One capture session: the microphone is opened, the engine reports
    [events], the user stops it and the engine ends. *)
Definition session (events : list SpeechRecognitionEvent) : list Event :=
  listen ++ (RecognitionResult <$> events) ++ [ClickMic; RecognitionEnd].

(** The text a capture session hands over. *)
Definition heard (events : list SpeechRecognitionEvent) : string :=
  trim (String.concat " " (drop_leading_empty (finals events))).

(** The session identifiers a state can put in a message call are among
    [ids] and not empty. *)
Definition known (ids : list string) (s : State) : Prop :=
  (forall c, conversationIdRef s = Some c -> c ∈ ids /\ is_empty c = false)
  /\ Forall (fun c => c ∈ ids /\ is_empty c = false) (fetch_ids (effects s)).


End SpeechRuns.

(** ** The voices of the settings panel (SpeechConversation.tsx) *)

Module VoiceSelection.

Import SpeechConversation.

(** *** loadVoices (lines 281-322)

    [String.prototype.toLowerCase], as far as the searches for the six
    words below can tell: A to Z become a to z.  Every other code point
    keeps bytes that are in no word, but for U+212A, which becomes [k], a
    letter of none of the words, and U+0130, which becomes [i] followed by
    U+0307, where every word has another letter or its end. *)
Definition lower (c : ascii) : ascii :=
  let n := nat_of_ascii c in
  if Nat.leb 65 n && Nat.leb n 90 then ascii_of_nat (n + 32) else c.

Fixpoint toLowerCase (s : string) : string :=
  match s with
  | EmptyString => EmptyString
  | String c r => String (lower c) (toLowerCase r)
  end.

(** [voice.name.toLowerCase().includes(word)]. *)
Definition named (word : string) (voice : SpeechSynthesisVoice) : bool :=
  includes word (toLowerCase (name voice)).

(** The callback of [voices.filter]. *)
Definition preferred (voice : SpeechSynthesisVoice) : bool :=
  let isEnglish := String.prefix "en" (lang voice) in
  isEnglish
  && (named "wavenet" voice || named "neural" voice
      || named "samantha" voice || named "daniel" voice
      || named "enhanced" voice || named "premium" voice).

(** The callback of [preferredVoices.sort]. *)
Definition compareVoices (a b : SpeechSynthesisVoice) : Z :=
  if named "wavenet" a && negb (named "wavenet" b) then (-1)%Z
  else if negb (named "wavenet" a) && named "wavenet" b then 1%Z
  else if named "neural" a && negb (named "neural" b) then (-1)%Z
  else if negb (named "neural" a) && named "neural" b then 1%Z
  else 0%Z.

(** [Array.prototype.sort] is stable (ECMAScript 2019), and the callback
    orders the voices by a rank, so the result is the stable sort: each
    element, from the right, goes before the first one it does not come
    after. *)
Fixpoint insert {A} (compareFn : A -> A -> Z) (a : A) (l : list A) : list A :=
  match l with
  | [] => [a]
  | b :: r =>
      if (0 <? compareFn a b)%Z then b :: insert compareFn a r else a :: l
  end.

Definition sort {A} (compareFn : A -> A -> Z) (l : list A) : list A :=
  foldr (insert compareFn) [] l.

Definition set_selectedVoiceRef (v : option SpeechSynthesisVoice) (s : State)
    : State :=
  {| messages := messages s; isListening := isListening s;
     isSpeaking := isSpeaking s; speechRecognition := speechRecognition s;
     interimTranscript := interimTranscript s;
     finalTranscript := finalTranscript s; error := error s;
     isLoading := isLoading s; resetDialogOpen := resetDialogOpen s;
     finalTranscriptRef := finalTranscriptRef s;
     conversationIdRef := conversationIdRef s;
     isInitializedRef := isInitializedRef s;
     selectedVoiceRef := v; repoConfig := repoConfig s;
     recognizing := recognizing s; speechSynthesis := speechSynthesis s;
     voices := voices s; startPending := startPending s;
     outstanding := outstanding s; mediaRequests := mediaRequests s;
     effects := effects s |}.

Definition set_voices (v : list SpeechSynthesisVoice) (s : State) : State :=
  {| messages := messages s; isListening := isListening s;
     isSpeaking := isSpeaking s; speechRecognition := speechRecognition s;
     interimTranscript := interimTranscript s;
     finalTranscript := finalTranscript s; error := error s;
     isLoading := isLoading s; resetDialogOpen := resetDialogOpen s;
     finalTranscriptRef := finalTranscriptRef s;
     conversationIdRef := conversationIdRef s;
     isInitializedRef := isInitializedRef s;
     selectedVoiceRef := selectedVoiceRef s; repoConfig := repoConfig s;
     recognizing := recognizing s; speechSynthesis := speechSynthesis s;
     voices := v; startPending := startPending s;
     outstanding := outstanding s; mediaRequests := mediaRequests s;
     effects := effects s |}.

(** The controller with the two state variables of the settings panel.
    [voices (controller p)] is what [speechSynthesis.getVoices()]
    returns. *)
Record Panel := {
  controller : State;
  availableVoices : list SpeechSynthesisVoice;
  selectedVoiceName : string
}.

Definition topVoices (vs : list SpeechSynthesisVoice)
    : list SpeechSynthesisVoice :=
  take 4 (sort compareVoices (filter (fun v => preferred v = true) vs)).

Definition loadVoices (p : Panel) : Panel :=
  let top := topVoices (voices (controller p)) in
  match selectedVoiceRef (controller p), top with
  | None, first :: _ =>
      {| controller := set_selectedVoiceRef (Some first) (controller p);
         availableVoices := top; selectedVoiceName := name first |}
  | _, _ =>
      {| controller := controller p; availableVoices := top;
         selectedVoiceName := selectedVoiceName p |}
  end.

(** *** handleVoiceChange (lines 506-518) *)
Definition handleVoiceChange (voiceName : string) (p : Panel) : Panel :=
  match find (fun voice => String.eqb (name voice) voiceName)
          (voices (controller p)) with
  | Some newVoice =>
      {| controller := set_selectedVoiceRef (Some newVoice) (controller p);
         availableVoices := availableVoices p;
         selectedVoiceName := voiceName |}
  | None => p
  end.

(** The panel when the component is shown, before the effect that loads
    the voices. *)
Definition panel (s : State) : Panel :=
  {| controller := s; availableVoices := []; selectedVoiceName := "" |}.





(** *** Vocabulary of the properties *)

(** The quality the comparison orders by: WaveNet first, then neural. *)
Definition rank (voice : SpeechSynthesisVoice) : nat :=
  (if named "wavenet" voice then 0 else 2)
  + (if named "neural" voice then 0 else 1).

Definition ranked (l : list SpeechSynthesisVoice) : Prop :=
  StronglySorted (fun a b => rank a <= rank b) l.

(** The voices of one rank, in their order. *)
Definition of_rank (r : nat) (l : list SpeechSynthesisVoice)
    : list SpeechSynthesisVoice :=
  filter (fun v => rank v = r) l.



(** A browser list with a French voice and five English ones. *)
Definition six_voices : list SpeechSynthesisVoice :=
  [ {| name := "Daniel"; lang := "fr-FR" |};
    {| name := "Samantha"; lang := "en-US" |};
    {| name := "Microsoft Aria Online (Natural) Neural"; lang := "en-US" |};
    {| name := "Daniel"; lang := "en-GB" |};
    {| name := "Google en-US-Wavenet-D"; lang := "en-US" |};
    {| name := "Alex Premium"; lang := "en-US" |} ].

End VoiceSelection.

(** ** Runs of the WebRTC controller *)

Module VoiceChatRuns.

Import VoiceChat.

(** The constructor of the connection has thrown. *)
Definition is_refusal (e : Event) : bool :=
  match e with
  | SetupReply (PeerConnectionThrows _ _ _) => true
  | _ => false
  end.

(** No connection but the one the ref points to raises events. *)
Definition one_call (s : State) : Prop :=
  forall p, open s p = true -> peerConnectionRef s = Some p.

(** Every audio track the connection sends is enabled exactly when the
    mute flag is off. *)
Definition muted_as_shown (s : State) : Prop :=
  forall p t track,
    peerConnectionRef s = Some p -> Some t ∈ getSenders s p ->
    tracks s !! t = Some track -> kind track = audio ->
    enabled track = negb (isMuted s).

(** What every run keeps true of the flags and the refs. *)
Definition steady (s : State) : Prop :=
  (peerConnectionRef s = None -> isMuted s = false)
  /\ (is_Some (peerConnectionRef s) ->
      isRecording s = true \/ is_Some (setup s))
  /\ (is_Some (setup s) -> isLoading s = true)
  /\ (setup s = Some AwaitMedia -> peerConnectionRef s = None)
  /\ one_call s
  /\ muted_as_shown s.

(** The two states are at the same point of the same call. *)
Definition same_call (s s' : State) : Prop :=
  isMuted s' = isMuted s /\ peerConnectionRef s' = peerConnectionRef s
  /\ tracks s' = tracks s
  /\ (forall q, open s' q = open s q)
  /\ (forall q, getSenders s' q = getSenders s q).

End VoiceChatRuns.

(** * Properties *)

Module JsStringFacts.

Lemma is_empty_true (s : string) : is_empty s = true <-> s = "".
Proof. destruct s; simpl; split; intros H; congruence. Qed.

Lemma is_empty_false (s : string) : is_empty s = false <-> s <> "".
Proof. destruct s; simpl; split; intros H; congruence. Qed.

Lemma is_empty_app_sep (a b : string) : is_empty (a +:+ " " +:+ b) = false.
Proof. destruct a; reflexivity. Qed.

Lemma append_cons (x : ascii) (a b : string) :
  String x a +:+ b = String x (a +:+ b).
Proof. reflexivity. Qed.

Lemma append_assoc (a b c : string) : (a +:+ b) +:+ c = a +:+ (b +:+ c).
Proof.
  induction a as [|x a IH]; [reflexivity|].
  now rewrite !append_cons, IH.
Qed.

(** Joining with a separator, one fragment at a time from the left. *)
Lemma concat_absorb (sep p t : string) (rest : list string) :
  String.concat sep ((p +:+ sep +:+ t) :: rest)
  = String.concat sep (p :: t :: rest).
Proof.
  destruct rest as [|x rest]; [reflexivity|].
  change (String.concat sep ((p +:+ sep +:+ t) :: x :: rest))
    with ((p +:+ sep +:+ t) +:+ sep +:+ String.concat sep (x :: rest)).
  change (String.concat sep (p :: t :: x :: rest))
    with (p +:+ sep +:+ (t +:+ sep +:+ String.concat sep (x :: rest))).
  now rewrite !append_assoc.
Qed.

Example trim_example : trim "  show  contributors
 " = "show  contributors".
Proof. reflexivity. Qed.

(** A no-break space, an ideographic space and a byte-order mark are
    trimmed like a space. *)
Example trim_unicode_example :
  trim (String "194" (String "160" "hi" +:+ String "227" (String "128" (String "128" (String "239" (String "187" (String "191" "")))))))
  = "hi"
  /\ trim (String "194" (String "160" "")) = "".
Proof. split; reflexivity. Qed.

Example includes_example :
  includes "repository" "Invalid repository URL" = true
  /\ includes "repository" "Failed to process message" = false.
Proof. split; reflexivity. Qed.

Lemma trim_end_cons (c : ascii) (r : string) :
  trim_end (String c r)
  = if is_white (String c (trim_end r)) then "" else String c (trim_end r).
Proof. reflexivity. Qed.

Lemma trim_end_idempotent (s : string) : trim_end (trim_end s) = trim_end s.
Proof.
  induction s as [|c r IH]; [reflexivity|]. rewrite trim_end_cons.
  destruct (is_white (String c (trim_end r))) eqn:H; [reflexivity|].
  now rewrite trim_end_cons, IH, H.
Qed.

Lemma trim_end_prefix (s : string) : exists r, s = trim_end s +:+ r.
Proof.
  induction s as [|c s [r IH]]; [now exists ""|]. rewrite trim_end_cons.
  destruct (is_white (String c (trim_end s))).
  - now exists (String c s).
  - exists r. now rewrite append_cons, <- IH.
Qed.

Lemma starts_white_app (p r : string) :
  starts_white p = true -> starts_white (p +:+ r) = true.
Proof.
  destruct p as [|a [|b [|c p]]]; [discriminate|..];
    rewrite ?append_cons; cbn [starts_white].
  - rewrite orb_false_r. intros ->. reflexivity.
  - rewrite orb_false_r. intros H. apply orb_true_iff in H as [->| ->];
      [reflexivity|]. rewrite orb_true_r. reflexivity.
  - intros H. destruct r; exact H.
Qed.

Lemma trim_start_cons (a : ascii) (r : string) :
  trim_start (String a r)
  = if is_ws a then trim_start r
    else
      match r with
      | EmptyString => String a r
      | String b r' =>
          if is_ws2 a b then trim_start r'
          else
            match r' with
            | EmptyString => String a r
            | String c r'' =>
                if is_ws3 a b c then trim_start r'' else String a r
            end
      end.
Proof. reflexivity. Qed.

Lemma starts_white_trim_start (s : string) :
  starts_white (trim_start s) = false.
Proof.
  remember (String.length s) as n eqn:Hn.
  revert s Hn. induction n as [n IH] using lt_wf_ind. intros s ->.
  destruct s as [|a r]; [reflexivity|]. rewrite trim_start_cons.
  destruct (is_ws a) eqn:Ha.
  { apply (IH (String.length r)); [simpl; lia|reflexivity]. }
  destruct r as [|b r]; [simpl; now rewrite Ha|].
  destruct (is_ws2 a b) eqn:Hab.
  { apply (IH (String.length r)); [simpl; lia|reflexivity]. }
  destruct r as [|c r]; [simpl; now rewrite Ha, Hab|].
  destruct (is_ws3 a b c) eqn:Habc.
  { apply (IH (String.length r)); [simpl; lia|reflexivity]. }
  simpl. now rewrite Ha, Hab, Habc.
Qed.

Lemma trim_start_fixed (s : string) :
  starts_white s = false -> trim_start s = s.
Proof.
  destruct s as [|a [|b [|c s]]]; simpl; try reflexivity.
  - rewrite orb_false_r. now intros ->.
  - rewrite orb_false_r. intros H. apply orb_false_iff in H as [-> ->].
    reflexivity.
  - intros H. apply orb_false_iff in H as [-> H].
    apply orb_false_iff in H as [-> ->]. reflexivity.
Qed.

Lemma trim_start_trim (s : string) : trim_start (trim s) = trim s.
Proof.
  apply trim_start_fixed. unfold trim.
  destruct (starts_white (trim_end (trim_start s))) eqn:H; [|reflexivity].
  destruct (trim_end_prefix (trim_start s)) as [r Hr].
  apply (starts_white_app _ r) in H. rewrite <- Hr in H.
  now rewrite starts_white_trim_start in H.
Qed.

Lemma trim_idempotent (s : string) : trim (trim s) = trim s.
Proof.
  unfold trim at 1. rewrite trim_start_trim.
  unfold trim. apply trim_end_idempotent.
Qed.

End JsStringFacts.

Module SpeechConversationSpec.

Import SpeechConversation JsStringFacts.

(** ** Transcript buffers *)

Lemma items_of_cons final r rs :
  items_of final (r :: rs)
  = (if bool_decide (isFinal r = final) then [transcript r] else [])
      ++ items_of final rs.
Proof.
  unfold items_of. rewrite filter_cons.
  case_bool_decide; destruct (decide _); try contradiction; reflexivity.
Qed.

Lemma accumulate_concat (frags : list string) (prev : string) :
  fold_left accumulate frags prev
  = String.concat " " (drop_leading_empty (prev :: frags)).
Proof.
  revert prev; induction frags as [|t frags IH]; intros prev.
  - destruct prev; reflexivity.
  - simpl fold_left. rewrite IH. unfold accumulate.
    destruct prev as [|c p]; [reflexivity|].
    simpl is_empty. cbv iota. rewrite append_cons. simpl.
    rewrite <- append_cons. apply (concat_absorb " " (String c p)).
Qed.

Lemma items_final (rs : list SpeechRecognitionAlternative) (s : State) :
  finalTranscript (fold_left onresult_item rs s)
  = fold_left accumulate (items_of true rs) (finalTranscript s).
Proof.
  revert s; induction rs as [|r rs IH]; intros s; [reflexivity|].
  simpl fold_left. rewrite IH, items_of_cons. unfold onresult_item.
  destruct (isFinal r) eqn:Hf; reflexivity.
Qed.

Lemma items_interim (rs : list SpeechRecognitionAlternative) (s : State) :
  interimTranscript (fold_left onresult_item rs s)
  = default (interimTranscript s) (last (items_of false rs)).
Proof.
  revert s; induction rs as [|r rs IH]; intros s; [reflexivity|].
  simpl fold_left. rewrite IH, items_of_cons. unfold onresult_item.
  destruct (isFinal r) eqn:Hf; simpl; [reflexivity|].
  destruct (items_of false rs) as [|x l] eqn:Hl; [reflexivity|].
  rewrite last_cons_cons, (last_cons x l).
  destruct (last l); reflexivity.
Qed.

Lemma items_of_snoc final r rs :
  items_of final (rs ++ [r])
  = items_of final rs
      ++ (if bool_decide (isFinal r = final) then [transcript r] else []).
Proof.
  unfold items_of. rewrite filter_app, fmap_app. f_equal.
  rewrite filter_cons.
  case_bool_decide; destruct (decide _); try contradiction; reflexivity.
Qed.

Lemma item_ref (s : State) (r : SpeechRecognitionAlternative) :
  finalTranscriptRef (onresult_item s r)
  = if isFinal r then finalTranscript (onresult_item s r)
    else finalTranscriptRef s.
Proof. unfold onresult_item. destruct (isFinal r); reflexivity. Qed.

Lemma item_not_final (s : State) (r : SpeechRecognitionAlternative) :
  isFinal r = false ->
  finalTranscript (onresult_item s r) = finalTranscript s.
Proof. unfold onresult_item. intros ->. reflexivity. Qed.

Lemma items_ref (rs : list SpeechRecognitionAlternative) (s : State) :
  finalTranscriptRef (fold_left onresult_item rs s)
  = if bool_decide (items_of true rs = [])
    then finalTranscriptRef s
    else finalTranscript (fold_left onresult_item rs s).
Proof.
  induction rs as [|r rs IH] using rev_ind; [reflexivity|].
  rewrite fold_left_app. simpl fold_left.
  rewrite item_ref, items_of_snoc.
  destruct (isFinal r) eqn:Hf.
  - rewrite (bool_decide_eq_true_2 (true = true)) by reflexivity.
    rewrite bool_decide_eq_false_2; [reflexivity|].
    intros H. now apply app_eq_nil in H as [_ H].
  - rewrite (bool_decide_eq_false_2 (false = true)) by discriminate.
    rewrite app_nil_r, item_not_final by assumption. exact IH.
Qed.

Lemma feed_final (events : list SpeechRecognitionEvent) (s : State) :
  finalTranscript (feed events s)
  = fold_left accumulate (finals events) (finalTranscript s).
Proof.
  revert s; induction events as [|e events IH]; intros s; [reflexivity|].
  unfold feed, finals in *. simpl. rewrite fold_left_app, IH.
  unfold onresult. now rewrite items_final.
Qed.

Lemma feed_interim (events : list SpeechRecognitionEvent) (s : State) :
  interimTranscript (feed events s)
  = default (interimTranscript s) (last (interims events)).
Proof.
  revert s; induction events as [|e events IH]; intros s; [reflexivity|].
  unfold feed, interims in *. simpl. rewrite IH, last_app.
  unfold onresult. rewrite items_interim.
  fold (items_of false (drop (resultIndex e) (results e))).
  fold (fragments false e).
  destruct (last (concat _)); reflexivity.
Qed.

Lemma feed_ref (events : list SpeechRecognitionEvent) (s : State) :
  finalTranscriptRef (feed events s)
  = if bool_decide (finals events = [])
    then finalTranscriptRef s
    else finalTranscript (feed events s).
Proof.
  induction events as [|e events IH] using rev_ind; [reflexivity|].
  assert (Hsnoc : finals (events ++ [e]) = finals events ++ fragments true e).
  { unfold finals. rewrite fmap_app, concat_app. simpl.
    now rewrite app_nil_r. }
  assert (Hfeed : feed (events ++ [e]) s = onresult e (feed events s)).
  { unfold feed. now rewrite fold_left_app. }
  rewrite Hsnoc, Hfeed. unfold onresult. rewrite items_ref.
  change (items_of true (drop (resultIndex e) (results e)))
    with (fragments true e).
  destruct (decide (fragments true e = [])) as [He|He].
  - rewrite (bool_decide_eq_true_2 _ He), He, app_nil_r, IH.
    destruct (bool_decide (finals events = [])); [reflexivity|].
    rewrite items_final.
    change (items_of true (drop (resultIndex e) (results e)))
      with (fragments true e).
    now rewrite He.
  - rewrite (bool_decide_eq_false_2 _ He).
    rewrite bool_decide_eq_false_2; [reflexivity|].
    intros H. now apply app_eq_nil in H as [_ H].
Qed.

Example show_contributors_fragments :
  finals show_contributors = ["show"; "contributors"]
  /\ interims show_contributors = ["sho"; "contri"].
Proof. split; reflexivity. Qed.

Lemma drop_leading_empty_nonempty (l : list string) :
  Forall (fun f => f <> "") l -> drop_leading_empty l = l.
Proof.
  intros [|x r Hx _]; [reflexivity|]. simpl.
  apply is_empty_false in Hx. now rewrite Hx.
Qed.

(** C1: after any sequence of recognition events the interim transcript is
    the latest interim fragment alone, nothing being joined to it, and the
    final transcript is the old one with the final fragments added in
    arrival order, each behind exactly one separating space (a fragment that
    finds the transcript empty goes in without a separator).  From a cleared
    buffer and with no empty fragment, the final transcript is therefore the
    fragments joined by single spaces; the finals "show" and "contributors"
    give "show contributors".  The ref holds the same text as soon as one
    final result has arrived. *)
Theorem C1_transcript_buffers
    (events : list SpeechRecognitionEvent) (s : State) :
  interimTranscript (feed events s)
  = default (interimTranscript s) (last (interims events))
  /\ finalTranscript (feed events s)
     = fold_left accumulate (finals events) (finalTranscript s)
  /\ finalTranscript (feed events s)
     = String.concat " "
         (drop_leading_empty (finalTranscript s :: finals events))
  /\ (finalTranscript s = "" ->
      Forall (fun f => f <> "") (finals events) ->
      finalTranscript (feed events s) = String.concat " " (finals events))
  /\ finalTranscriptRef (feed events s)
     = (if bool_decide (finals events = [])
        then finalTranscriptRef s
        else finalTranscript (feed events s))
  /\ finalTranscript (feed show_contributors (set_finalTranscript "" s))
     = "show contributors".
Proof.
  split; [apply feed_interim|].
  split; [apply feed_final|].
  split; [rewrite feed_final; apply accumulate_concat|].
  split.
  { intros Hs Hf. rewrite feed_final, accumulate_concat, Hs. simpl.
    now rewrite drop_leading_empty_nonempty. }
  split; [apply feed_ref|].
  rewrite feed_final. reflexivity.
Qed.

Lemma C1_transcript_buffers_witness :
  finalTranscript started = ""
  /\ Forall (fun f => f <> "") (finals show_contributors)
  /\ interimTranscript (feed show_contributors started) = "contri"
  /\ finalTranscript (feed show_contributors started)
     = String.concat " " ["show"; "contributors"].
Proof.
  assert (Hs : finalTranscript started = "") by reflexivity.
  assert (Hf : Forall (fun f => f <> "") (finals show_contributors))
    by (repeat constructor; discriminate).
  destruct (C1_transcript_buffers show_contributors started)
    as (Hi & _ & _ & Hjoin & _).
  split; [exact Hs|]. split; [exact Hf|].
  split; [exact Hi | exact (Hjoin Hs Hf)].
Defined.

(** An empty final fragment at the start of a session leaves no separator
    behind it. *)
Example empty_first_fragment :
  exists s,
    run (listen ++ (RecognitionResult <$> silence_then_a)) started = Some s
    /\ finals silence_then_a = [""; "a"]
    /\ finalTranscript s = "a".
Proof. eexists. split; [vm_compute; reflexivity|]. split; reflexivity. Qed.

(** ** Turns *)

Lemma user_turns_messages (s s' : State) :
  messages s' = messages s -> user_turns s' = user_turns s.
Proof. unfold user_turns. now intros ->. Qed.

Lemma user_turns_app (s s' : State) (added : list Message) :
  messages s' = messages s ++ added ->
  user_turns s'
  = user_turns s ++ (text <$> filter (fun m => type m = user) added).
Proof. unfold user_turns. intros ->. now rewrite filter_app, fmap_app. Qed.

Lemma onresult_messages (event : SpeechRecognitionEvent) (s : State) :
  messages (onresult event s) = messages s.
Proof.
  unfold onresult. generalize (drop (resultIndex event) (results event)).
  intros rs; revert s; induction rs as [|r rs IH]; intros s; [reflexivity|].
  simpl. rewrite IH. unfold onresult_item.
  destruct (isFinal r); reflexivity.
Qed.

Lemma handleUserInput_messages (t : string) (s : State) :
  messages (handleUserInput t s)
  = messages s
      ++ (if is_empty (trim t) then [] else [{| text := t; type := user |}]).
Proof.
  unfold handleUserInput. destruct (is_empty (trim t)).
  - now rewrite app_nil_r.
  - simpl. destruct (repoConfig s); simpl; [|reflexivity].
    destruct (conversationIdRef s); reflexivity.
Qed.

Lemma resume_messages (o : FetchOutcome) (s : State) :
  exists reply,
    messages (handleUserInput_resume o s) = messages s ++ reply
    /\ Forall (fun m => type m = system) reply.
Proof.
  destruct o as [data_text|m|m]; simpl.
  - exists [{| text := data_text; type := system |}]. split.
    + unfold speakText. simpl. destruct (speechSynthesis s); reflexivity.
    + repeat constructor.
  - destruct (includes _ _).
    + exists []. split; [now rewrite app_nil_r | constructor].
    + exists [fallback_message]. split; [reflexivity | repeat constructor].
  - destruct (includes _ _).
    + exists []. split; [now rewrite app_nil_r | constructor].
    + exists [fallback_message]. split; [reflexivity | repeat constructor].
Qed.

Lemma toggle_resume_messages cl o (s : State) :
  messages (toggleListening_resume cl o s) = messages s.
Proof.
  destruct o; simpl; [|reflexivity].
  destruct (cl_speechRecognition cl && negb (cl_isSpeaking cl));
    [|reflexivity].
  simpl. destruct (recognizing s); reflexivity.
Qed.

Lemma onend_messages (s : State) :
  messages (onend s)
  = messages s
      ++ (if is_empty (trim (finalTranscriptRef s)) then []
          else [{| text := trim (finalTranscriptRef s); type := user |}]).
Proof.
  unfold onend. destruct (is_empty (finalTranscriptRef s)) eqn:He.
  - apply is_empty_true in He. rewrite He. simpl. now rewrite app_nil_r.
  - simpl. rewrite handleUserInput_messages. now rewrite trim_idempotent.
Qed.

(** Every handler only appends to the Turn history. *)
Lemma step_messages (e : Event) (s : State) :
  exists added, messages (step e s) = messages s ++ added.
Proof.
  destruct e as [o| |i o|event| | |i o| | | | | | ]; simpl;
    try (exists []; rewrite app_nil_r; reflexivity).
  - exists []. rewrite app_nil_r. destruct o as [data_id|]; simpl;
      [destruct (is_empty data_id)|]; reflexivity.
  - exists []. rewrite app_nil_r. unfold toggleListening.
    destruct (isListening s), (speechRecognition s); reflexivity.
  - exists []. rewrite app_nil_r.
    destruct (mediaRequests s !! i); [|reflexivity].
    now rewrite toggle_resume_messages.
  - exists []. rewrite app_nil_r. apply onresult_messages.
  - eexists. apply onend_messages.
  - destruct (outstanding s !! i).
    + destruct (resume_messages o
                  (set_outstanding (delete i (outstanding s)) s))
        as (reply & -> & _).
      now exists reply.
    + exists []. now rewrite app_nil_r.
Qed.

Lemma run_messages (evs : list Event) (s s' : State) :
  run evs s = Some s' -> exists added, messages s' = messages s ++ added.
Proof.
  revert s; induction evs as [|e evs IH]; intros s; simpl.
  - intros [= ->]. exists []. now rewrite app_nil_r.
  - destruct (possible e s); [|discriminate]. intros H.
    destruct (IH _ H) as [l2 ->], (step_messages e s) as [l1 ->].
    exists (l1 ++ l2). now rewrite app_assoc.
Qed.

Lemma step_user_turns (e : Event) (s : State) :
  user_turns (step e s)
  = user_turns s ++ match e with RecognitionEnd => flushed s | _ => [] end.
Proof.
  assert (Hsame : forall s', messages s' = messages s ->
                             user_turns s' = user_turns s ++ []).
  { intros s' H. rewrite app_nil_r. now apply user_turns_messages. }
  destruct e as [o| |i o|event| | |i o| | | | | | ]; simpl;
    try (apply Hsame; reflexivity).
  - apply Hsame. destruct o as [data_id|]; simpl;
      [destruct (is_empty data_id)|]; reflexivity.
  - apply Hsame. unfold toggleListening.
    destruct (isListening s), (speechRecognition s); reflexivity.
  - apply Hsame. destruct (mediaRequests s !! i); [|reflexivity].
    now rewrite toggle_resume_messages.
  - apply Hsame, onresult_messages.
  - rewrite (user_turns_app _ _ _ (onend_messages s)). unfold flushed.
    destruct (is_empty (trim (finalTranscriptRef s))); reflexivity.
  - destruct (outstanding s !! i); [|now rewrite app_nil_r].
    destruct (resume_messages o (set_outstanding (delete i (outstanding s)) s))
      as (reply & Hm & Hsys).
    rewrite (user_turns_app _ _ _ Hm). f_equal.
    clear Hm. induction Hsys as [|x reply Hx _ IH]; [reflexivity|].
    rewrite filter_cons. destruct (decide _) as [Hu|_]; [|exact IH].
    rewrite Hx in Hu. discriminate.
Qed.

(** The scenario of the two phrases, from the click that starts listening
    to the end of the session: one Turn, one backend call. *)
Example show_contributors_turn :
  exists s,
    run (listen ++ (RecognitionResult <$> show_contributors)
           ++ [ClickMic; RecognitionEnd])
        started = Some s
    /\ messages s = [{| text := "show contributors"; type := user |}]
    /\ outstanding s
       = [{| call_conversation := "c1"; call_text := "show contributors" |}]
    /\ finalTranscript s = "" /\ finalTranscriptRef s = ""
    /\ isListening s = false.
Proof.
  eexists. split; [vm_compute; reflexivity|].
  repeat match goal with |- _ /\ _ => split end; reflexivity.
Qed.

(** C2, as the code has it: a user Turn is appended by the end-of-session
    notification and by no other event (not by the click that calls
    stop()); at that notification the trimmed final transcript becomes
    exactly one user Turn when it is not blank, and the buffer is emptied;
    when the transcript is empty, or holds white space only, no Turn is
    appended, no error is set and no call is made. *)
Theorem C2_turn_flushed_at_end (e : Event) (s : State) :
  user_turns (step e s)
  = user_turns s ++ match e with RecognitionEnd => flushed s | _ => [] end
  /\ finalTranscriptRef (onend s) = ""
  /\ finalTranscript (onend s)
     = (if is_empty (finalTranscriptRef s) then finalTranscript s else "")
  /\ (if is_empty (trim (finalTranscriptRef s))
      then untouched s (onend s) else True).
Proof.
  split; [apply step_user_turns|].
  unfold onend, untouched.
  destruct (is_empty (finalTranscriptRef s)) eqn:He.
  - apply is_empty_true in He. rewrite He. simpl. rewrite He. tauto.
  - simpl. repeat split.
    destruct (is_empty (trim (finalTranscriptRef s))) eqn:Ht; [|exact I].
    unfold handleUserInput. rewrite trim_idempotent, Ht. simpl. tauto.
Qed.

(** C2 as stated fails for a transcript of white space: it is not empty,
    yet the end-of-session notification appends no Turn. *)
Lemma C2_blank_transcript_counterexample :
  exists s,
    run (listen
           ++ [RecognitionResult
                 {| results := [final_result " "]; resultIndex := 0 |};
               ClickMic])
        started = Some s
    /\ possible RecognitionEnd s = true
    /\ finalTranscriptRef s = " "
    /\ finalTranscriptRef s <> ""
    /\ messages (step RecognitionEnd s) = []
    /\ outstanding (step RecognitionEnd s) = [].
Proof.
  eexists. split; [vm_compute; reflexivity|].
  repeat split; try reflexivity. vm_compute. discriminate.
Qed.

(** A transcript of one no-break space (U+00A0) is blank as well. *)
Example no_break_space_transcript :
  exists s,
    run (listen
           ++ [RecognitionResult
                 {| results := [final_result (String "194" (String "160" ""))];
                    resultIndex := 0 |};
               ClickMic])
        started = Some s
    /\ finalTranscriptRef s = String "194" (String "160" "")
    /\ trim (finalTranscriptRef s) = ""
    /\ messages (step RecognitionEnd s) = []
    /\ outstanding (step RecognitionEnd s) = [].
Proof.
  eexists. split; [vm_compute; reflexivity|].
  repeat split; reflexivity.
Qed.

(** ** Submitting an utterance *)

Lemma handleUserInput_outstanding (t : string) (s : State) :
  outstanding (handleUserInput t s) = outstanding s ++ submitted t s.
Proof.
  unfold handleUserInput, submitted.
  destruct (is_empty (trim t)); simpl; [now rewrite app_nil_r|].
  destruct (repoConfig s); simpl; [|now rewrite app_nil_r].
  destruct (conversationIdRef s); simpl; [reflexivity|now rewrite app_nil_r].
Qed.

Lemma resume_outstanding (o : FetchOutcome) (s : State) :
  outstanding (handleUserInput_resume o s) = outstanding s.
Proof.
  destruct o; simpl; try (destruct (includes _ _); reflexivity).
  unfold speakText. simpl. destruct (speechSynthesis s); reflexivity.
Qed.

Lemma speakText_spoken (vs : VoiceSettings) (t : string) (s : State) :
  spoken (speakText vs t s)
  = spoken s ++ match speechSynthesis s with Some _ => [t] | None => [] end.
Proof.
  unfold speakText, spoken. destruct (speechSynthesis s); simpl.
  - now rewrite !omap_app, <- app_assoc.
  - now rewrite app_nil_r.
Qed.

Lemma submitted_sent (t : string) (s : State) (call : MessageCall) :
  outstanding (handleUserInput t s) = outstanding s ++ [call] ->
  is_empty (trim t) = false /\ call_text call = t
  /\ conversationIdRef s = Some (call_conversation call).
Proof.
  rewrite handleUserInput_outstanding. intros H.
  apply app_inv_head in H. unfold submitted in H.
  destruct (is_empty (trim t)); [discriminate|].
  destruct (repoConfig s); [|discriminate].
  destruct (conversationIdRef s); [|discriminate].
  simpl in H. injection H as <-. auto.
Qed.

(** C3: when [handleUserInput] is given a non-empty text and sends its
    backend call, it has appended the User Turn with that text; when the
    call succeeds, whatever has happened in between, the Assistant Turn
    with the reply is appended behind that User Turn (directly behind it
    when nothing came in between), and [speakText] runs once, on the reply:
    the browser is asked to speak the reply and nothing else. *)
Theorem C3_successful_submit
    (s s2 : State) (t reply : string) (call : MessageCall)
    (evs : list Event) :
  t <> "" ->
  outstanding (handleUserInput t s) = outstanding s ++ [call] ->
  run evs (handleUserInput t s) = Some s2 ->
  let user_turn := {| text := t; type := user |} in
  let assistant_turn := {| text := reply; type := system |} in
  let s3 := handleUserInput_resume (ResponseOk reply) s2 in
  call_text call = t
  /\ messages (handleUserInput t s) = messages s ++ [user_turn]
  /\ (exists between,
        messages s3
        = messages s ++ [user_turn] ++ between ++ [assistant_turn])
  /\ messages (handleUserInput_resume (ResponseOk reply)
                 (handleUserInput t s))
     = messages s ++ [user_turn; assistant_turn]
  /\ s3 = speakText initialVoiceSettings reply
            (push_message assistant_turn (set_isLoading false s2))
  /\ spoken s3
     = spoken s2
         ++ match speechSynthesis s2 with Some _ => [reply] | None => [] end.
Proof.
  intros _ Hsent Hrun user_turn assistant_turn s3.
  destruct (submitted_sent _ _ _ Hsent) as (Ht & Hcall & _).
  assert (Hm : messages (handleUserInput t s) = messages s ++ [user_turn]).
  { now rewrite handleUserInput_messages, Ht. }
  assert (Hr : forall s', messages (handleUserInput_resume (ResponseOk reply) s')
                          = messages s' ++ [assistant_turn]).
  { intros s'. simpl. unfold speakText. simpl.
    destruct (speechSynthesis s'); reflexivity. }
  repeat split; try assumption.
  - destruct (run_messages _ _ _ Hrun) as [between Hb].
    exists between. unfold s3. rewrite Hr, Hb, Hm.
    now rewrite <- !app_assoc.
  - rewrite Hr, Hm. now rewrite <- app_assoc.
  - unfold s3. simpl. now rewrite speakText_spoken.
Qed.

Lemma C3_successful_submit_witness :
  let s1 := handleUserInput "list issues" started in
  let s3 := handleUserInput_resume (ResponseOk "Here are the issues...") s1 in
  "list issues" <> ""
  /\ outstanding s1
     = outstanding started
         ++ [{| call_conversation := "c1"; call_text := "list issues" |}]
  /\ run [] s1 = Some s1
  /\ messages s3
     = [ {| text := "list issues"; type := user |};
         {| text := "Here are the issues..."; type := system |} ]
  /\ spoken s3 = ["Here are the issues..."].
Proof.
  intros s1 s3.
  assert (H1 : "list issues" <> "") by discriminate.
  assert (H2 : outstanding s1
               = outstanding started
                   ++ [{| call_conversation := "c1";
                          call_text := "list issues" |}]) by reflexivity.
  assert (H3 : run [] s1 = Some s1) by reflexivity.
  destruct (C3_successful_submit started s1 "list issues"
              "Here are the issues..." _ [] H1 H2 H3)
    as (_ & _ & _ & Hm & _ & Hs).
  repeat split; assumption.
Defined.

(** C4: when the backend call fails the error text is shown and the loading
    flag is dropped; if the message of the failure contains "repository"
    the controller resets (session identifier gone, dialog closed, route
    changed to the setup page) and appends no Turn; otherwise it appends the
    fallback Assistant Turn and keeps the session. *)
Theorem C4_backend_failure (o : FetchOutcome) (message : string) (s : State) :
  error_message o = Some message ->
  let s' := handleUserInput_resume o s in
  error s'
  = Some "Sorry, there was an error processing your request. Please try again."
  /\ isLoading s' = false
  /\ (if includes "repository" message
      then s' = handleReset
                  (set_isLoading false
                     (set_error
                        (Some "Sorry, there was an error processing your request. Please try again.")
                        s))
           /\ conversationIdRef s' = None
           /\ effects s' = effects s ++ [Navigate "/auth"]
           /\ messages s' = messages s
      else messages s' = messages s ++ [fallback_message]
           /\ conversationIdRef s' = conversationIdRef s
           /\ effects s' = effects s).
Proof.
  intros Hm s'. unfold s'.
  destruct o as [data_text|m|m]; [discriminate| |]; simpl in Hm |- *;
    injection Hm as Hm; rewrite Hm;
    destruct (includes "repository" message); repeat split.
Qed.

Lemma C4_backend_failure_witness :
  let o := ResponseNotOk (Some "Invalid repository configuration") in
  let s := handleUserInput "list issues" started in
  error_message o = Some "Invalid repository configuration"
  /\ conversationIdRef s = Some "c1"
  /\ conversationIdRef (handleUserInput_resume o s) = None
  /\ messages (handleUserInput_resume o s) = messages s
  /\ effects (handleUserInput_resume o s) = effects s ++ [Navigate "/auth"].
Proof.
  intros o s.
  assert (H : error_message o = Some "Invalid repository configuration")
    by reflexivity.
  pose proof (C4_backend_failure o _ s H) as (_ & _ & Hreset).
  change (includes "repository" "Invalid repository configuration")
    with true in Hreset.
  destruct Hreset as (_ & Hc & He & Hm).
  repeat split; assumption.
Defined.

Example C4_fallback_example :
  let s := handleUserInput "list issues" started in
  messages (handleUserInput_resume (FetchRejected "Failed to fetch") s)
  = [ {| text := "list issues"; type := user |}; fallback_message ]
  /\ messages (handleUserInput_resume (ResponseNotOk None) s)
     = [ {| text := "list issues"; type := user |}; fallback_message ].
Proof. split; reflexivity. Qed.

(** ** Backend calls in flight *)

Lemma delete_None {A} (l : list A) (i : nat) :
  l !! i = None -> delete i l = l.
Proof.
  revert i; induction l as [|x l IH]; intros [|i]; simpl;
    try reflexivity; try discriminate.
  intros H. f_equal. now apply IH.
Qed.

Lemma toggle_resume_outstanding cl o (s : State) :
  outstanding (toggleListening_resume cl o s) = outstanding s.
Proof.
  destruct o; simpl; [|reflexivity].
  destruct (cl_speechRecognition cl && negb (cl_isSpeaking cl));
    [|reflexivity].
  simpl. destruct (recognizing s); reflexivity.
Qed.

Lemma onresult_outstanding (event : SpeechRecognitionEvent) (s : State) :
  outstanding (onresult event s) = outstanding s.
Proof.
  unfold onresult. generalize (drop (resultIndex event) (results event)).
  intros rs; revert s; induction rs as [|r rs IH]; intros s; [reflexivity|].
  simpl. rewrite IH. unfold onresult_item.
  destruct (isFinal r); reflexivity.
Qed.

(** C5, as the code has it: [handleUserInput] sends its backend call for
    every non-blank text once the configuration and the session identifier
    are there, whether or not earlier calls of the session are still
    unanswered; over all events, the calls in flight grow by that call at an
    end-of-session notification, lose the answered call at a reply, and
    stay as they are otherwise. *)
Theorem C5_submission_not_gated (t : string) (e : Event) (s : State) :
  outstanding (handleUserInput t s) = outstanding s ++ submitted t s
  /\ outstanding (step e s)
     = match e with
       | RecognitionEnd =>
           outstanding s ++ submitted (trim (finalTranscriptRef s)) s
       | BackendReply i _ => delete i (outstanding s)
       | _ => outstanding s
       end.
Proof.
  split; [apply handleUserInput_outstanding|].
  destruct e as [o| |i o|event| | |i o| | | | | | ]; simpl; try reflexivity.
  - destruct o as [data_id|]; simpl; [destruct (is_empty data_id)|];
      reflexivity.
  - unfold toggleListening.
    destruct (isListening s), (speechRecognition s); reflexivity.
  - destruct (mediaRequests s !! i); [|reflexivity].
    now rewrite toggle_resume_outstanding.
  - apply onresult_outstanding.
  - unfold onend. destruct (is_empty (finalTranscriptRef s)) eqn:He; simpl.
    + apply is_empty_true in He. rewrite He. unfold submitted. simpl.
      now rewrite app_nil_r.
    + apply handleUserInput_outstanding.
  - destruct (outstanding s !! i) eqn:Hi.
    + now rewrite resume_outstanding.
    + now rewrite delete_None.
Qed.

(** C5 as stated fails: a second utterance spoken while the first call is
    unanswered is sent at once, and two calls of the session "c1" are in
    flight together. *)
Lemma C5_two_calls_counterexample :
  exists s,
    run (utter "show" ++ utter "contributors") started = Some s
    /\ outstanding s
       = [ {| call_conversation := "c1"; call_text := "show" |};
           {| call_conversation := "c1"; call_text := "contributors" |} ]
    /\ isLoading s = true.
Proof. eexists. split; [vm_compute; reflexivity|]. split; reflexivity. Qed.

(** ** Reset *)

(** C6, as the code has it: after [handleReset], from any state, the
    session identifier is absent, the confirmation dialog is closed and the
    one call made is the change of route to the setup page; the function
    itself leaves the Turn history as it was and stops nothing: recognition,
    synthesis, the calls in flight and the pending microphone requests are
    as before.  Doing it twice changes nothing more than the route call. *)
Theorem C6_reset (s : State) :
  conversationIdRef (handleReset s) = None
  /\ resetDialogOpen (handleReset s) = false
  /\ effects (handleReset s) = effects s ++ [Navigate "/auth"]
  /\ messages (handleReset s) = messages s
  /\ activity_kept s (handleReset s)
  /\ handleReset (handleReset s) = navigate "/auth" (handleReset s).
Proof. unfold activity_kept. repeat split. Qed.

(** C6 as stated fails: after a confirmed reset recognition is still
    running and the reply is still being spoken, and the state still holds
    both Turns. *)
Lemma C6_reset_counterexample :
  exists s,
    run reset_while_active started = Some s
    /\ conversationIdRef s = None
    /\ recognizing s = true
    /\ isListening s = true
    /\ isSpeaking s = true
    /\ (exists u, speechSynthesis s = Some [u] /\ u_text u = "hello")
    /\ messages s
       = [ {| text := "hi"; type := user |};
           {| text := "hello"; type := system |} ]
    /\ effects s
       = effects started
           ++ [GetUserMedia; StreamTracksStop; RecognitionStart;
               RecognitionStop; FetchMessage "c1" "hi";
               GetUserMedia; StreamTracksStop; RecognitionStart;
               SynthCancel;
               SynthSpeak {| u_text := "hello"; u_voice := None;
                             u_rate := 1; u_pitch := 1; u_volume := 1 |};
               Navigate "/auth"].
Proof.
  eexists. split; [vm_compute; reflexivity|].
  repeat split; try reflexivity.
  eexists. split; reflexivity.
Qed.

(** ** Capture and playback *)

Lemma starts_snoc (e : Effect) (s s' : State) :
  effects s' = effects s ++ [e] -> is_start e = false ->
  starts s' = starts s.
Proof.
  unfold starts. intros -> He. rewrite filter_app, length_app.
  rewrite filter_cons. destruct (decide _) as [H|H]; [congruence|].
  simpl. lia.
Qed.

(** A request to listen made while [isSpeaking] is set never starts
    recognition.  The button that makes the request is disabled; the
    handler itself, were it called, calls [recognition.start()] neither at
    once nor when its microphone request is answered, whatever has happened
    by then: the continuation tests the [isSpeaking] it was created with. *)
Lemma request_while_speaking_never_starts
    (s later : State) (o : MediaOutcome) :
  isSpeaking s = true ->
  possible ClickMic s = false
  /\ starts (toggleListening s) = starts s
  /\ recognizing (toggleListening s) = recognizing s
  /\ (mediaRequests (toggleListening s) = mediaRequests s
      \/ mediaRequests (toggleListening s)
         = mediaRequests s ++ [closure_of s])
  /\ starts (toggleListening_resume (closure_of s) o later) = starts later
  /\ recognizing (toggleListening_resume (closure_of s) o later)
     = recognizing later
  /\ isListening (toggleListening_resume (closure_of s) o later)
     = isListening later.
Proof.
  intros Hs. unfold possible. rewrite Hs, andb_false_r.
  split; [reflexivity|].
  assert (Hr : forall (P : State -> Prop),
             P later ->
             P (emit StreamTracksStop later) ->
             (forall message,
                P (emit (Alert ("Error accessing microphone: " +:+ message))
                     later)) ->
             P (toggleListening_resume (closure_of s) o later)).
  { intros P H0 H1 H2. unfold toggleListening_resume, closure_of. simpl.
    rewrite Hs, andb_false_r. destruct o; [exact H1 | apply H2]. }
  unfold toggleListening.
  destruct (isListening s), (speechRecognition s); simpl;
    (split; [first [reflexivity
                   | eapply starts_snoc; [reflexivity | reflexivity]]|]);
    (split; [reflexivity|]);
    (split; [auto|]);
    (split; [apply Hr; intros;
             first [reflexivity
                   | eapply starts_snoc; [reflexivity | reflexivity]]|]);
    split; apply Hr; intros; reflexivity.
Qed.

Example request_while_speaking :
  exists s,
    run (utter "hi" ++ [BackendReply 0 (ResponseOk "hello"); UtteranceStart])
        started = Some s
    /\ isSpeaking s = true
    /\ possible ClickMic s = false
    /\ starts (toggleListening_resume (closure_of s) MediaGranted
                 (toggleListening s)) = starts s.
Proof.
  eexists. split; [vm_compute; reflexivity|].
  match goal with |- isSpeaking ?s = _ /\ _ =>
    assert (Hs : isSpeaking s = true) by reflexivity;
    pose proof (request_while_speaking_never_starts s (toggleListening s)
                  MediaGranted Hs) as (Hb & H1 & _ & _ & H2 & _)
  end.
  split; [exact Hs|]. split; [exact Hb|].
  now rewrite H2, H1.
Qed.

(** C7 does not hold on this run.  The microphone is clicked while nothing
    is spoken, so the handler suspends at [getUserMedia] with
    [isSpeaking = false] in its closure; the reply arrives and its
    utterance starts; when the microphone request is granted the
    continuation passes its test [speechRecognition && !isSpeaking] and
    calls [recognition.start()], with [isSpeaking] set and the reply being
    spoken. *)
Theorem C7_capture_started_during_playback :
  exists s u,
    run reply_before_permission started = Some s
    /\ mediaRequests s
       = [{| cl_speechRecognition := true; cl_isListening := false;
             cl_isSpeaking := false |}]
    /\ isSpeaking s = true
    /\ speechSynthesis s = Some [u] /\ u_text u = "hello"
    /\ recognizing s = false
    /\ possible (MediaReply 0 MediaGranted) s = true
    /\ effects (step (MediaReply 0 MediaGranted) s)
       = effects s ++ [StreamTracksStop; RecognitionStart]
    /\ recognizing (step (MediaReply 0 MediaGranted) s) = true
    /\ isListening (step (MediaReply 0 MediaGranted) s) = true
    /\ isSpeaking (step (MediaReply 0 MediaGranted) s) = true.
Proof.
  eexists. eexists. split; [vm_compute; reflexivity|].
  repeat match goal with |- _ /\ _ => split end; reflexivity.
Qed.

End SpeechConversationSpec.

Module VoiceChatSpec.

Import VoiceChat.

(** ** Tracks reached through the senders of a connection *)

Lemma alter_senders_lookup (f : MediaStreamTrack -> MediaStreamTrack)
    (l : list (option nat)) (ts : list MediaStreamTrack) (t : nat) :
  (forall x, f (f x) = f x) ->
  fold_left (alter_sender f) l ts !! t
  = (if bool_decide (Some t ∈ l) then f else id) <$> ts !! t.
Proof.
  intros Hf. revert ts; induction l as [|sender l IH]; intros ts.
  - simpl. now destruct (ts !! t).
  - simpl fold_left. rewrite IH.
    destruct sender as [u|]; simpl.
    + destruct (decide (u = t)) as [->|Hne].
      * rewrite list_lookup_alter_eq.
        rewrite (bool_decide_eq_true_2 (Some t ∈ Some t :: l))
          by apply list_elem_of_here.
        destruct (ts !! t) as [x|]; simpl; [|reflexivity].
        destruct (bool_decide _); simpl; [now rewrite Hf | reflexivity].
      * rewrite list_lookup_alter_ne by assumption.
        destruct (decide (Some t ∈ l)) as [Hin|Hin].
        -- rewrite !bool_decide_eq_true_2; auto using list_elem_of_further.
        -- rewrite !bool_decide_eq_false_2; auto.
           intros [H|H]%elem_of_cons; [congruence | contradiction].
    + destruct (decide (Some t ∈ l)) as [Hin|Hin].
      * rewrite !bool_decide_eq_true_2; auto using list_elem_of_further.
      * rewrite !bool_decide_eq_false_2; auto.
        intros [H|H]%elem_of_cons; [congruence | contradiction].
Qed.

Lemma alter_senders_length (f : MediaStreamTrack -> MediaStreamTrack)
    (l : list (option nat)) (ts : list MediaStreamTrack) :
  length (fold_left (alter_sender f) l ts) = length ts.
Proof.
  revert ts; induction l as [|sender l IH]; intros ts; [reflexivity|].
  simpl. rewrite IH. destruct sender; simpl; [apply length_alter|reflexivity].
Qed.

Lemma stop_idempotent (x : MediaStreamTrack) : stop (stop x) = stop x.
Proof. reflexivity. Qed.

Lemma mute_track_idempotent (m : bool) (x : MediaStreamTrack) :
  mute_track m (mute_track m x) = mute_track m x.
Proof.
  unfold mute_track. destruct (bool_decide (kind x = audio)) eqn:H; simpl;
    now rewrite H.
Qed.

(** ** Teardown *)

(** A field read after one of the four blocks of [stopWebRTC]. *)
Ltac block :=
  intros;
  unfold close_peerConnection, close_audioContext, disconnect_sourceInput,
    disconnect_sourceOutput;
  repeat match goal with
         | |- context [match ?ref ?s with Some _ => _ | None => _ end] =>
             destruct (ref s) eqn:?
         end;
  try reflexivity; try congruence.

Lemma close_peerConnection_refs (s : State) :
  peerConnectionRef (close_peerConnection s) = None
  /\ audioContextRef (close_peerConnection s) = audioContextRef s
  /\ sourceInputRef (close_peerConnection s) = sourceInputRef s
  /\ sourceOutputRef (close_peerConnection s) = sourceOutputRef s.
Proof. repeat split; block. Qed.

Lemma close_audioContext_refs (s : State) :
  peerConnectionRef (close_audioContext s) = peerConnectionRef s
  /\ audioContextRef (close_audioContext s) = None
  /\ sourceInputRef (close_audioContext s) = sourceInputRef s
  /\ sourceOutputRef (close_audioContext s) = sourceOutputRef s.
Proof. repeat split; block. Qed.

Lemma disconnect_sourceInput_refs (s : State) :
  peerConnectionRef (disconnect_sourceInput s) = peerConnectionRef s
  /\ audioContextRef (disconnect_sourceInput s) = audioContextRef s
  /\ sourceInputRef (disconnect_sourceInput s) = None
  /\ sourceOutputRef (disconnect_sourceInput s) = sourceOutputRef s.
Proof. repeat split; block. Qed.

Lemma disconnect_sourceOutput_refs (s : State) :
  peerConnectionRef (disconnect_sourceOutput s) = peerConnectionRef s
  /\ audioContextRef (disconnect_sourceOutput s) = audioContextRef s
  /\ sourceInputRef (disconnect_sourceOutput s) = sourceInputRef s
  /\ sourceOutputRef (disconnect_sourceOutput s) = None.
Proof. repeat split; block. Qed.

Lemma stopWebRTC_refs (s : State) :
  peerConnectionRef (stopWebRTC s) = None
  /\ audioContextRef (stopWebRTC s) = None
  /\ sourceInputRef (stopWebRTC s) = None
  /\ sourceOutputRef (stopWebRTC s) = None.
Proof.
  unfold stopWebRTC.
  remember (close_peerConnection s) as s1 eqn:E1.
  remember (close_audioContext s1) as s2 eqn:E2.
  remember (disconnect_sourceInput s2) as s3 eqn:E3.
  change (peerConnectionRef (disconnect_sourceOutput s3) = None
          /\ audioContextRef (disconnect_sourceOutput s3) = None
          /\ sourceInputRef (disconnect_sourceOutput s3) = None
          /\ sourceOutputRef (disconnect_sourceOutput s3) = None).
  destruct (close_peerConnection_refs s) as (P1 & _).
  destruct (close_audioContext_refs s1) as (P2 & A2 & _).
  destruct (disconnect_sourceInput_refs s2) as (P3 & A3 & I3 & _).
  destruct (disconnect_sourceOutput_refs s3) as (P4 & A4 & I4 & O4).
  rewrite <- E1 in P1. rewrite <- E2 in P2, A2.
  rewrite <- E3 in P3, A3, I3.
  repeat split; congruence.
Qed.

(** With the four refs null only the two flags are written. *)
Lemma stopWebRTC_nothing (s : State) :
  peerConnectionRef s = None -> audioContextRef s = None ->
  sourceInputRef s = None -> sourceOutputRef s = None ->
  stopWebRTC s = set_isMuted false (set_isRecording false s).
Proof.
  intros P A I O. unfold stopWebRTC.
  assert (H1 : close_peerConnection s = s)
    by (unfold close_peerConnection; now rewrite P).
  rewrite H1.
  assert (H2 : close_audioContext s = s)
    by (unfold close_audioContext; now rewrite A).
  rewrite H2.
  assert (H3 : disconnect_sourceInput s = s)
    by (unfold disconnect_sourceInput; now rewrite I).
  rewrite H3.
  assert (H4 : disconnect_sourceOutput s = s)
    by (unfold disconnect_sourceOutput; now rewrite O).
  now rewrite H4.
Qed.

Lemma stopWebRTC_idempotent (s : State) :
  stopWebRTC (stopWebRTC s) = stopWebRTC s.
Proof.
  destruct (stopWebRTC_refs s) as (P & A & I & O).
  rewrite (stopWebRTC_nothing _ P A I O). reflexivity.
Qed.

Lemma stopWebRTC_flags (s : State) :
  isRecording (stopWebRTC s) = false /\ isMuted (stopWebRTC s) = false.
Proof. split; reflexivity. Qed.

Lemma stopWebRTC_tracks (s : State) :
  tracks (stopWebRTC s)
  = match peerConnectionRef s with
    | Some p => fold_left (alter_sender stop) (getSenders s p) (tracks s)
    | None => tracks s
    end.
Proof.
  unfold stopWebRTC.
  change (tracks (disconnect_sourceOutput (disconnect_sourceInput
            (close_audioContext (close_peerConnection s)))) = 
          match peerConnectionRef s with
          | Some p =>
              fold_left (alter_sender stop) (getSenders s p) (tracks s)
          | None => tracks s
          end).
  assert (H4 : forall x, tracks (disconnect_sourceOutput x) = tracks x) by block.
  assert (H3 : forall x, tracks (disconnect_sourceInput x) = tracks x) by block.
  assert (H2 : forall x, tracks (close_audioContext x) = tracks x) by block.
  rewrite H4, H3, H2. block.
Qed.

Lemma stopWebRTC_connections (s : State) :
  connections (stopWebRTC s)
  = match peerConnectionRef s with
    | Some p => alter close p (connections s)
    | None => connections s
    end.
Proof.
  unfold stopWebRTC.
  change (connections (disconnect_sourceOutput (disconnect_sourceInput
            (close_audioContext (close_peerConnection s)))) = 
          match peerConnectionRef s with
          | Some p => alter close p (connections s)
          | None => connections s
          end).
  assert (H4 : forall x, connections (disconnect_sourceOutput x) = connections x)
    by block.
  assert (H3 : forall x, connections (disconnect_sourceInput x) = connections x)
    by block.
  assert (H2 : forall x, connections (close_audioContext x) = connections x)
    by block.
  rewrite H4, H3, H2. block.
Qed.

Lemma stopWebRTC_contexts (s : State) :
  contexts (stopWebRTC s)
  = match audioContextRef s with
    | Some c => alter (fun _ => {| context_closed := true |}) c (contexts s)
    | None => contexts s
    end.
Proof.
  unfold stopWebRTC.
  change (contexts (disconnect_sourceOutput (disconnect_sourceInput
            (close_audioContext (close_peerConnection s)))) = 
          match audioContextRef s with
          | Some c =>
              alter (fun _ => {| context_closed := true |}) c (contexts s)
          | None => contexts s
          end).
  assert (H4 : forall x, contexts (disconnect_sourceOutput x) = contexts x)
    by block.
  assert (H3 : forall x, contexts (disconnect_sourceInput x) = contexts x)
    by block.
  assert (H1 : contexts (close_peerConnection s) = contexts s) by block.
  destruct (close_peerConnection_refs s) as (_ & A & _).
  rewrite H4, H3. unfold close_audioContext at 1. rewrite A, <- H1.
  now destruct (audioContextRef s).
Qed.

Lemma stopWebRTC_sources (s : State) :
  sources (stopWebRTC s)
  = disconnect_ref (sourceOutputRef s)
      (disconnect_ref (sourceInputRef s) (sources s)).
Proof.
  unfold stopWebRTC.
  change (sources (disconnect_sourceOutput (disconnect_sourceInput
            (close_audioContext (close_peerConnection s)))) = 
          disconnect_ref (sourceOutputRef s)
            (disconnect_ref (sourceInputRef s) (sources s))).
  remember (close_peerConnection s) as s1 eqn:E1.
  remember (close_audioContext s1) as s2 eqn:E2.
  assert (H1 : sources s1 = sources s) by (subst s1; block).
  assert (H2 : sources s2 = sources s1) by (subst s2; block).
  destruct (close_peerConnection_refs s) as (_ & _ & I1 & O1).
  destruct (close_audioContext_refs s1) as (_ & _ & I2 & O2).
  destruct (disconnect_sourceInput_refs s2) as (_ & _ & _ & O3).
  rewrite <- E1 in I1, O1. rewrite <- E2 in I2, O2.
  assert (H3 : sources (disconnect_sourceInput s2)
               = disconnect_ref (sourceInputRef s2) (sources s2))
    by (unfold disconnect_sourceInput; now destruct (sourceInputRef s2)).
  assert (H4 : forall x, sources (disconnect_sourceOutput x)
                         = disconnect_ref (sourceOutputRef x) (sources x))
    by (intros x; unfold disconnect_sourceOutput;
        now destruct (sourceOutputRef x)).
  rewrite H4, H3, O3. congruence.
Qed.

Lemma disconnect_ref_lookup ref l n :
  node_connected <$> disconnect_ref ref l !! n
  = (if bool_decide (ref = Some n) then fun _ => false else id)
      <$> (node_connected <$> l !! n).
Proof.
  destruct ref as [m|]; simpl.
  - destruct (decide (m = n)) as [->|Hne].
    + rewrite list_lookup_alter_eq, bool_decide_eq_true_2 by reflexivity.
      now destruct (l !! n).
    + rewrite list_lookup_alter_ne, bool_decide_eq_false_2 by congruence.
      now destruct (l !! n).
  - now destruct (l !! n).
Qed.

Lemma stopWebRTC_torn_down (s : State) : torn_down s (stopWebRTC s).
Proof.
  unfold torn_down.
  destruct (stopWebRTC_refs s) as (P & A & I & O).
  repeat match goal with |- _ /\ _ => split end;
    try assumption; try reflexivity.
  - intros p t Hp Hin. rewrite stopWebRTC_tracks, Hp.
    rewrite alter_senders_lookup by apply stop_idempotent.
    rewrite bool_decide_eq_true_2 by assumption.
    now destruct (tracks s !! t).
  - intros p Hp. rewrite stopWebRTC_connections, Hp.
    rewrite list_lookup_alter_eq. now destruct (connections s !! p).
  - intros c Hc. rewrite stopWebRTC_contexts, Hc.
    rewrite list_lookup_alter_eq. now destruct (contexts s !! c).
  - intros n Hn. rewrite stopWebRTC_sources, !disconnect_ref_lookup.
    destruct (sources s !! n) as [x|]; simpl.
    + destruct Hn as [Hn|Hn]; rewrite Hn;
        rewrite (bool_decide_eq_true_2 (Some n = Some n)) by reflexivity;
        simpl; [|reflexivity].
      destruct (bool_decide (sourceOutputRef s = Some n)); reflexivity.
    + destruct (bool_decide (sourceOutputRef s = Some n)),
        (bool_decide (sourceInputRef s = Some n)); reflexivity.
Qed.

Lemma stopWebRTC_iter (n : nat) (s : State) :
  Nat.iter (S n) stopWebRTC s = stopWebRTC s.
Proof.
  induction n as [|n IH]; [reflexivity|].
  change (Nat.iter (S (S n)) stopWebRTC s)
    with (stopWebRTC (Nat.iter (S n) stopWebRTC s)).
  rewrite IH. apply stopWebRTC_idempotent.
Qed.

(** X14. [stopWebRTC] is a total function of the state, with no failing step;
    run a second time, or any number of times more, it changes nothing; and
    after it, from any state, the four refs are null, the recording and
    muted flags are cleared, every track held by a sender of the connection
    has ended, the connection is closed, the audio context is closed and
    both source nodes are disconnected. *)
Theorem teardown_idempotent (n : nat) (s : State) :
  stopWebRTC (stopWebRTC s) = stopWebRTC s
  /\ Nat.iter (S n) stopWebRTC s = stopWebRTC s
  /\ torn_down s (stopWebRTC s).
Proof.
  split; [apply stopWebRTC_idempotent|].
  split; [apply stopWebRTC_iter | apply stopWebRTC_torn_down].
Qed.

(** Teardown reaches the local tracks through the senders of the
    connection: where every live track is held by one, none is live
    afterwards. *)
Lemma stopWebRTC_released (s : State) : held s -> released (stopWebRTC s).
Proof.
  intros H. apply Forall_lookup. intros t track Ht.
  rewrite stopWebRTC_tracks in Ht.
  destruct (peerConnectionRef s) as [p|] eqn:Hp.
  - rewrite alter_senders_lookup in Ht by apply stop_idempotent.
    destruct (tracks s !! t) as [x|] eqn:Hx; [|discriminate].
    destruct (decide (Some t ∈ getSenders s p)) as [Hin|Hin].
    + rewrite bool_decide_eq_true_2 in Ht by assumption.
      injection Ht as <-. reflexivity.
    + rewrite bool_decide_eq_false_2 in Ht by assumption.
      injection Ht as <-. destruct (ended x) eqn:He; [reflexivity|].
      destruct (H t x Hx He) as (q & Hq & Hin').
      rewrite Hp in Hq. injection Hq as <-. contradiction.
  - destruct (ended track) eqn:He; [reflexivity|].
    destruct (H t track Ht He) as (q & Hq & _). congruence.
Qed.

(** C9 fails where setup fails between the microphone and the connection:
    [new RTCPeerConnection(config)] throws, the [catch] runs [stopWebRTC],
    which finds no connection and so no sender, and the track of the
    microphone, held by the stream alone, stays live, however often
    teardown is run again.  The rest of the end state is as the claim
    says. *)
Theorem C9_microphone_left_live :
  exists s,
    run connection_refused (mount "key") = Some s
    /\ error s = Some "Failed to construct 'RTCPeerConnection'"
    /\ isLoading s = false /\ setup s = None
    /\ peerConnectionRef s = None /\ connections s = []
    /\ isRecording s = false
    /\ tracks s = [live_track]
    /\ ~ released s
    /\ stopWebRTC s = s
    /\ forall n, tracks (Nat.iter n stopWebRTC s) = [live_track].
Proof.
  eexists. split; [vm_compute; reflexivity|].
  do 7 (split; [vm_compute; reflexivity|]).
  split; [|split; [vm_compute; reflexivity|]].
  - intros H. apply Forall_inv in H. vm_compute in H. discriminate.
  - intros [|n]; [vm_compute; reflexivity|].
    rewrite stopWebRTC_iter. vm_compute. reflexivity.
Qed.

(** Teardown of a connected call, by the button and again when the page
    goes; and teardown after the connection has failed, where the handler
    of the state change has already run it. *)
Example teardown_of_connected_call :
  exists s,
    run call_connected (mount "key") = Some s
    /\ isRecording s = true /\ isConnected s = true
    /\ peerConnectionRef s = Some 0 /\ getSenders s 0 = [Some 0]
    /\ tracks s = [live_track]
    /\ tracks (stopWebRTC s)
       = [{| kind := audio; enabled := true; ended := true |}]
    /\ connectionState <$> connections (stopWebRTC s) = [closed]
    /\ contexts (stopWebRTC s) = [{| context_closed := true |}]
    /\ node_connected <$> sources (stopWebRTC s) = [false; false]
    /\ isRecording (stopWebRTC s) = false
    /\ step Unmount (step ClickMain s) = step ClickMain s.
Proof.
  eexists. split; [vm_compute; reflexivity|].
  repeat match goal with |- _ /\ _ => split end; vm_compute; reflexivity.
Qed.

Example teardown_after_failure :
  exists s,
    run (call_connected ++ [ConnectionStateChange 0 failed]) (mount "key")
    = Some s
    /\ tracks s = [{| kind := audio; enabled := true; ended := true |}]
    /\ connectionState <$> connections s = [closed]
    /\ isRecording s = false /\ isConnected s = false
    /\ stopWebRTC s = s.
Proof.
  eexists. split; [vm_compute; reflexivity|].
  repeat match goal with |- _ /\ _ => split end; vm_compute; reflexivity.
Qed.

(** ** Mute *)

(** What [toggleMute] does not write. *)
Lemma toggleMute_frame (s : State) :
  isRecording (toggleMute s) = isRecording s
  /\ peerConnectionRef (toggleMute s) = peerConnectionRef s
  /\ connections (toggleMute s) = connections s
  /\ audioContextRef (toggleMute s) = audioContextRef s
  /\ contexts (toggleMute s) = contexts s
  /\ sources (toggleMute s) = sources s
  /\ messages (toggleMute s) = messages s
  /\ sent (toggleMute s) = sent s.
Proof.
  unfold toggleMute. destruct (peerConnectionRef s) eqn:Hp;
    repeat split; try reflexivity; exact Hp.
Qed.

(** C10: with no peer connection [toggleMute] returns the state as it is;
    with one, the state differs in [isMuted], which is flipped, and in the
    store of tracks alone: the store keeps its length, the audio tracks
    held by senders of the connection get [enabled] set to the old value
    of [isMuted], every other track, and the kind and ready state of every
    track, are as before.  Recording flag, connection, audio graph and
    messages are among the fields that do not change. *)
Theorem C10_toggleMute_frame (s : State) :
  match peerConnectionRef s with
  | None => toggleMute s = s
  | Some p =>
      toggleMute s
      = set_isMuted (negb (isMuted s))
          (set_tracks (tracks (toggleMute s)) s)
      /\ isRecording (toggleMute s) = isRecording s
      /\ peerConnectionRef (toggleMute s) = peerConnectionRef s
      /\ connections (toggleMute s) = connections s
      /\ audioContextRef (toggleMute s) = audioContextRef s
      /\ contexts (toggleMute s) = contexts s
      /\ sources (toggleMute s) = sources s
      /\ messages (toggleMute s) = messages s
      /\ length (tracks (toggleMute s)) = length (tracks s)
      /\ forall t,
           tracks (toggleMute s) !! t
           = (fun track =>
                if bool_decide (Some t ∈ getSenders s p)
                   && bool_decide (kind track = audio)
                then set_enabled (isMuted s) track
                else track) <$> tracks s !! t
  end.
Proof.
  destruct (toggleMute_frame s) as (F1 & F2 & F3 & F4 & F5 & F6 & F7 & _).
  unfold toggleMute in *.
  destruct (peerConnectionRef s) as [p|]; [|reflexivity].
  split; [reflexivity|].
  repeat (split; [assumption|]).
  change (tracks (set_isMuted (negb (isMuted s))
                    (set_tracks
                       (fold_left (alter_sender (mute_track (negb (isMuted s))))
                          (getSenders s p) (tracks s)) s)))
    with (fold_left (alter_sender (mute_track (negb (isMuted s))))
            (getSenders s p) (tracks s)).
  split; [apply alter_senders_length|].
  intros t. rewrite alter_senders_lookup by apply mute_track_idempotent.
  destruct (tracks s !! t) as [track|]; [|reflexivity]. simpl. f_equal.
  unfold mute_track. rewrite negb_involutive.
  destruct (bool_decide (Some t ∈ getSenders s p)); reflexivity.
Qed.

Example mute_then_unmute :
  exists s,
    run (call_connected ++ [ClickMute]) (mount "key") = Some s
    /\ isMuted s = true
    /\ tracks s = [{| kind := audio; enabled := false; ended := false |}]
    /\ tracks (toggleMute s)
       = [{| kind := audio; enabled := true; ended := false |}]
    /\ isMuted (toggleMute s) = false
    /\ toggleMute (mount "key") = mount "key".
Proof.
  eexists. split; [vm_compute; reflexivity|].
  repeat match goal with |- _ /\ _ => split end; vm_compute; reflexivity.
Qed.

(** ** Trickle signalling *)

(** C8, as the code has it: a candidate the connection reports is posted
    to the signalling endpoint in the handler itself, with the identifier of
    the call, whatever stage the setup is in; the handler changes nothing
    but the posted messages, so nothing is held back for later; the null
    candidate that ends gathering posts nothing. *)
Theorem C8_candidates_posted_at_once
    (p : nat) (candidate : option string) (s : State) :
  sent (step (IceCandidate p candidate) s)
  = sent s
      ++ match candidate with
         | Some c => [IceCandidateMessage c (webrtcIdRef s)]
         | None => []
         end
  /\ step (IceCandidate p candidate) s
     = set_sent (sent (step (IceCandidate p candidate) s)) s.
Proof.
  destruct candidate as [c|]; simpl.
  - split; reflexivity.
  - rewrite app_nil_r. split; [reflexivity|]. now destruct s.
Qed.

(** C8 as stated fails: a candidate found while the answer to the offer is
    awaited is not queued; it is posted before the answer has returned. *)
Lemma C8_not_queued_counterexample :
  exists s,
    run offer_posted (mount "key") = Some s
    /\ setup s = Some AwaitAnswer
    /\ possible (IceCandidate 0 (Some "candidate:1 1 udp")) s = true
    /\ sent s = [OfferMessage (Some "v=0 offer") "k3x9f"]
    /\ sent (step (IceCandidate 0 (Some "candidate:1 1 udp")) s)
       = [ OfferMessage (Some "v=0 offer") "k3x9f";
           IceCandidateMessage "candidate:1 1 udp" "k3x9f" ]
    /\ setup (step (IceCandidate 0 (Some "candidate:1 1 udp")) s)
       = Some AwaitAnswer.
Proof.
  eexists. split; [vm_compute; reflexivity|].
  repeat match goal with |- _ /\ _ => split end; vm_compute; reflexivity.
Qed.

End VoiceChatSpec.

Module SpeechRunsSpec.

Import SpeechConversation SpeechRuns JsStringFacts SpeechConversationSpec.

(** ** What a run of recognition results touches *)

Lemma with_transcripts_twice (i f r i' f' r' : string) (s : State) :
  with_transcripts i f r (with_transcripts i' f' r' s)
  = with_transcripts i f r s.
Proof. reflexivity. Qed.

Lemma with_transcripts_same (s : State) :
  with_transcripts (interimTranscript s) (finalTranscript s)
    (finalTranscriptRef s) s = s.
Proof. now destruct s. Qed.

Lemma onresult_item_shape (s : State) (r : SpeechRecognitionAlternative) :
  exists i f ref, onresult_item s r = with_transcripts i f ref s.
Proof.
  unfold onresult_item. destruct (isFinal r).
  - exists (interimTranscript s), (accumulate (finalTranscript s) (transcript r)),
      (accumulate (finalTranscript s) (transcript r)). reflexivity.
  - exists (transcript r), (finalTranscript s), (finalTranscriptRef s).
    reflexivity.
Qed.

Lemma onresult_shape (event : SpeechRecognitionEvent) (s : State) :
  exists i f ref, onresult event s = with_transcripts i f ref s.
Proof.
  unfold onresult. generalize (drop (resultIndex event) (results event)).
  intros rs. induction rs as [|r rs IH] using rev_ind.
  - exists (interimTranscript s), (finalTranscript s), (finalTranscriptRef s).
    simpl. now rewrite with_transcripts_same.
  - rewrite fold_left_app. simpl. destruct IH as (i & f & ref & ->).
    destruct (onresult_item_shape (with_transcripts i f ref s) r)
      as (i' & f' & ref' & ->).
    exists i', f', ref'. apply with_transcripts_twice.
Qed.

Lemma feed_shape (events : list SpeechRecognitionEvent) (s : State) :
  exists i f ref, feed events s = with_transcripts i f ref s.
Proof.
  induction events as [|e events IH] using rev_ind.
  - exists (interimTranscript s), (finalTranscript s), (finalTranscriptRef s).
    simpl. now rewrite with_transcripts_same.
  - unfold feed in *. rewrite fold_left_app. simpl.
    destruct IH as (i & f & ref & ->).
    destruct (onresult_shape e (with_transcripts i f ref s))
      as (i' & f' & ref' & ->).
    exists i', f', ref'. apply with_transcripts_twice.
Qed.

(** ** Runs *)

Lemma run_app (a b : list Event) (s : State) :
  run (a ++ b) s = run a s ≫= run b.
Proof.
  revert s; induction a as [|e a IH]; intros s; simpl; [reflexivity|].
  destruct (possible e s); [apply IH | reflexivity].
Qed.

Lemma run_results (events : list SpeechRecognitionEvent) (s : State) :
  recognizing s = true ->
  run (RecognitionResult <$> events) s = Some (feed events s).
Proof.
  revert s; induction events as [|e events IH]; intros s Hr; [reflexivity|].
  simpl. rewrite Hr. apply IH.
  destruct (onresult_shape e s) as (i & f & ref & ->). exact Hr.
Qed.

Lemma mounted_more (s s' : State) (l : list Effect) :
  effects s' = effects s ++ l ->
  forallb (fun e => negb (is_navigate e)) l = true ->
  mounted s' = mounted s.
Proof.
  unfold mounted. intros -> Hl. now rewrite forallb_app, Hl, andb_true_r.
Qed.

Lemma onend_outstanding (s : State) :
  outstanding (onend s)
  = outstanding s ++ submitted (trim (finalTranscriptRef s)) s.
Proof.
  unfold onend. destruct (is_empty (finalTranscriptRef s)) eqn:He; simpl.
  - apply is_empty_true in He. rewrite He. unfold submitted. simpl.
    now rewrite app_nil_r.
  - apply handleUserInput_outstanding.
Qed.

(** The state in which the recognition events of a session arrive. *)
Lemma run_listen (s : State) :
  idle s ->
  exists s2,
    run listen s = Some s2
    /\ recognizing s2 = true /\ isListening s2 = true
    /\ finalTranscript s2 = "" /\ finalTranscriptRef s2 = ""
    /\ messages s2 = messages s /\ outstanding s2 = outstanding s
    /\ repoConfig s2 = repoConfig s
    /\ conversationIdRef s2 = conversationIdRef s
    /\ speechRecognition s2 = true /\ isSpeaking s2 = false
    /\ mounted s2 = true.
Proof.
  intros (Hm & Hsp & Hl & Hr & Hrec & Hq & Href).
  unfold listen. simpl. rewrite Hm, Hsp. simpl.
  unfold toggleListening. rewrite Hl. simpl. rewrite Hq. simpl.
  rewrite Hr, Hsp, Hrec. simpl.
  eexists. split; [reflexivity|]. simpl.
  repeat split; try assumption; try reflexivity.
  rewrite <- Hm. eapply mounted_more with (l := [_; _; _]).
  - simpl. rewrite <- !app_assoc. reflexivity.
  - reflexivity.
Qed.

Lemma feed_final_ref (events : list SpeechRecognitionEvent) (s : State) :
  finalTranscript s = "" -> finalTranscriptRef s = "" ->
  finalTranscriptRef (feed events s)
  = String.concat " " (drop_leading_empty (finals events))
  /\ finalTranscript (feed events s) = finalTranscriptRef (feed events s).
Proof.
  intros Hf Hr.
  assert (H : finalTranscript (feed events s)
              = String.concat " " (drop_leading_empty (finals events))).
  { rewrite feed_final, accumulate_concat, Hf. reflexivity. }
  rewrite feed_ref. destruct (decide (finals events = [])) as [He|He].
  - rewrite bool_decide_eq_true_2 by assumption.
    rewrite H, He, Hr. split; reflexivity.
  - rewrite bool_decide_eq_false_2 by assumption. now split.
Qed.

Lemma onend_cells (s : State) :
  finalTranscriptRef (onend s) = ""
  /\ finalTranscript (onend s)
     = (if is_empty (finalTranscriptRef s) then finalTranscript s else "")
  /\ isListening (onend s) = false /\ recognizing (onend s) = false.
Proof.
  unfold onend. destruct (is_empty (finalTranscriptRef s)) eqn:He.
  - apply is_empty_true in He. simpl. repeat split. exact He.
  - simpl. repeat split.
Qed.

(** X1. A whole capture session, from the click that starts it to the end
    notification, hands over one text: the final fragments joined by single
    spaces and trimmed.  It becomes exactly one user Turn and at most one
    backend call, or nothing at all when it is blank; the buffers are empty
    and the controller has stopped listening afterwards. *)
Theorem capture_session_hands_over_one_turn
    (events : list SpeechRecognitionEvent) (s : State) :
  idle s ->
  exists s',
    run (session events) s = Some s'
    /\ messages s'
       = messages s
           ++ (if is_empty (heard events) then []
               else [{| text := heard events; type := user |}])
    /\ outstanding s' = outstanding s ++ submitted (heard events) s
    /\ finalTranscript s' = "" /\ finalTranscriptRef s' = ""
    /\ isListening s' = false /\ recognizing s' = false.
Proof.
  intros Hidle.
  destruct (run_listen s Hidle)
    as (s2 & Hrun & Hrec & Hlis & Hf & Href & Hmsg & Hout & Hcfg & Hid
        & Hsr & Hsp & Hm).
  destruct (feed_final_ref events s2 Hf Href) as (Hjoin & Hsame).
  destruct (feed_shape events s2) as (i & f & ref & Hshape).
  set (s3 := feed events s2) in *.
  assert (F3 : recognizing s3 = true /\ isListening s3 = true
               /\ speechRecognition s3 = true /\ isSpeaking s3 = false
               /\ mounted s3 = true /\ messages s3 = messages s
               /\ outstanding s3 = outstanding s
               /\ repoConfig s3 = repoConfig s
               /\ conversationIdRef s3 = conversationIdRef s).
  { rewrite Hshape. unfold mounted in *. simpl. tauto. }
  destruct F3 as (R3 & L3 & S3 & P3 & M3 & Msg3 & O3 & C3 & I3).
  set (s4 := set_isListening false (emit RecognitionStop s3)).
  assert (Hrun' : run (session events) s = Some (onend s4)).
  { unfold session. rewrite run_app, Hrun. simpl.
    rewrite run_app, (run_results events s2 Hrec). fold s3. simpl.
    rewrite M3, P3. simpl. unfold toggleListening. rewrite L3, S3.
    fold s4. change (recognizing s4) with (recognizing s3). now rewrite R3. }
  exists (onend s4). split; [exact Hrun'|].
  assert (Hheard : trim (finalTranscriptRef s4) = heard events).
  { change (finalTranscriptRef s4) with (finalTranscriptRef s3).
    now rewrite Hjoin. }
  split.
  { rewrite onend_messages, Hheard.
    change (messages s4) with (messages s3). now rewrite Msg3. }
  split.
  { rewrite onend_outstanding, Hheard.
    change (outstanding s4) with (outstanding s3). rewrite O3. f_equal.
    unfold submitted.
    change (repoConfig s4) with (repoConfig s3).
    change (conversationIdRef s4) with (conversationIdRef s3).
    now rewrite C3, I3. }
  destruct (onend_cells s4) as (E1 & E2 & E3 & E4).
  repeat split; try assumption.
  rewrite E2.
  change (finalTranscriptRef s4) with (finalTranscriptRef s3).
  change (finalTranscript s4) with (finalTranscript s3).
  destruct (is_empty (finalTranscriptRef s3)) eqn:He; [|reflexivity].
  apply is_empty_true in He. now rewrite Hsame.
Qed.

Lemma capture_session_hands_over_one_turn_witness :
  idle started
  /\ heard show_contributors = "show contributors"
  /\ exists s',
       run (session show_contributors) started = Some s'
       /\ messages s' = [{| text := "show contributors"; type := user |}].
Proof.
  assert (H : idle started) by (repeat split).
  destruct (capture_session_hands_over_one_turn show_contributors started H)
    as (s' & Hrun & Hm & _).
  split; [exact H|]. split; [reflexivity|].
  exists s'. split; [exact Hrun | exact Hm].
Defined.

(** ** The Turn history over a run *)

Lemma turns_of_app (who : MessageType) (a b : list Message) :
  turns_of who (a ++ b) = turns_of who a ++ turns_of who b.
Proof. unfold turns_of. apply filter_app. Qed.

Lemma step_turns (e : Event) (s : State) :
  exists added,
    messages (step e s) = messages s ++ added
    /\ length (turns_of user added) <= (if is_end e then 1 else 0)
    /\ length (turns_of system added) <= (if is_reply e then 1 else 0).
Proof.
  assert (Hsame : forall s', messages s' = messages s ->
            exists added, messages s' = messages s ++ added
              /\ length (turns_of user added) <= (if is_end e then 1 else 0)
              /\ length (turns_of system added)
                 <= (if is_reply e then 1 else 0)).
  { intros s' H. exists []. rewrite app_nil_r. split; [exact H|].
    split; simpl; lia. }
  destruct e as [o| |i o|event| | |i o| | | | | | ];
    cbn [step is_end is_reply]; try (apply Hsame; reflexivity).
  - apply Hsame. destruct o as [data_id|]; simpl;
      [destruct (is_empty data_id)|]; reflexivity.
  - apply Hsame. unfold toggleListening.
    destruct (isListening s), (speechRecognition s); reflexivity.
  - apply Hsame. destruct (mediaRequests s !! i); [|reflexivity].
    now rewrite toggle_resume_messages.
  - apply Hsame, onresult_messages.
  - rewrite onend_messages.
    destruct (is_empty (trim (finalTranscriptRef s))).
    + exists []. simpl. repeat split; lia.
    + eexists. split; [reflexivity|]. split; vm_compute; lia.
  - destruct (outstanding s !! i); [|exists []; rewrite app_nil_r; simpl;
      repeat split; lia].
    destruct o as [data_text|msg|msg]; simpl.
    + eexists. split.
      * unfold speakText. simpl. destruct (speechSynthesis s); reflexivity.
      * split; vm_compute; lia.
    + destruct (includes _ _).
      * exists []. rewrite app_nil_r. simpl. repeat split; lia.
      * eexists. split; [reflexivity|]. split; vm_compute; lia.
    + destruct (includes _ _).
      * exists []. rewrite app_nil_r. simpl. repeat split; lia.
      * eexists. split; [reflexivity|]. split; vm_compute; lia.
Qed.

Lemma ends_cons (e : Event) (evs : list Event) :
  ends (e :: evs) = (if is_end e then 1 else 0) + ends evs.
Proof.
  unfold ends. rewrite filter_cons.
  destruct (decide (is_end e = true)) as [->|H]; [reflexivity|].
  now destruct (is_end e).
Qed.

Lemma replies_cons (e : Event) (evs : list Event) :
  replies (e :: evs) = (if is_reply e then 1 else 0) + replies evs.
Proof.
  unfold replies. rewrite filter_cons.
  destruct (decide (is_reply e = true)) as [->|H]; [reflexivity|].
  now destruct (is_reply e).
Qed.

(** X2. Over any run the Turn history only grows at its end, by at most one
    user Turn for each end of a capture session and at most one assistant
    Turn for each backend reply: no handler removes, reorders or repeats a
    Turn. *)
Theorem history_grows_by_turns (evs : list Event) (s s' : State) :
  run evs s = Some s' ->
  exists added,
    messages s' = messages s ++ added
    /\ length (turns_of user added) <= ends evs
    /\ length (turns_of system added) <= replies evs.
Proof.
  revert s; induction evs as [|e evs IH]; intros s; cbn [run].
  - intros [= ->]. exists []. rewrite app_nil_r. repeat split; simpl; lia.
  - destruct (possible e s); [|discriminate]. intros H.
    destruct (IH _ H) as (l2 & -> & Hu2 & Hs2).
    destruct (step_turns e s) as (l1 & -> & Hu1 & Hs1).
    exists (l1 ++ l2). rewrite app_assoc. split; [reflexivity|].
    rewrite !turns_of_app, !length_app, ends_cons, replies_cons. lia.
Qed.

Lemma history_grows_by_turns_witness :
  exists s',
    run (utter "hi" ++ [BackendReply 0 (ResponseOk "hello")]) started
    = Some s'
    /\ exists added,
         messages s' = messages started ++ added
         /\ length (turns_of user added)
            <= ends (utter "hi" ++ [BackendReply 0 (ResponseOk "hello")])
         /\ length (turns_of system added)
            <= replies (utter "hi" ++ [BackendReply 0 (ResponseOk "hello")]).
Proof.
  eexists. split; [vm_compute; reflexivity|].
  apply (history_grows_by_turns
           (utter "hi" ++ [BackendReply 0 (ResponseOk "hello")]) started).
  vm_compute. reflexivity.
Defined.

(** ** Message calls over a run *)

Lemma fetch_ids_app (a b : list Effect) :
  fetch_ids (a ++ b) = fetch_ids a ++ fetch_ids b.
Proof. apply omap_app. Qed.

(** The message calls among the effects of a handler that has been
    unfolded down to [emit]. *)
Ltac calls :=
  unfold handleReset, startNewConversation_failed, navigate, emit;
  cbn - [fetch_ids];
  rewrite ?fetch_ids_app; cbn; rewrite ?app_nil_r; auto.

Lemma handleUserInput_fetch (t : string) (s : State) :
  fetch_ids (effects (handleUserInput t s))
  = fetch_ids (effects s) ++ (call_conversation <$> submitted t s).
Proof.
  unfold handleUserInput, submitted.
  destruct (is_empty (trim t)); cbn - [fetch_ids]; [now rewrite app_nil_r|].
  destruct (repoConfig s); cbn - [fetch_ids].
  - destruct (conversationIdRef s); calls.
  - calls.
Qed.

Lemma handleUserInput_session (t : string) (s : State) :
  conversationIdRef (handleUserInput t s) = conversationIdRef s
  /\ startPending (handleUserInput t s) = startPending s.
Proof.
  unfold handleUserInput. destruct (is_empty (trim t)); [easy|].
  simpl. destruct (repoConfig s); simpl; [|easy].
  destruct (conversationIdRef s) eqn:E; simpl; split; auto.
Qed.

Lemma onend_fetch (s : State) :
  fetch_ids (effects (onend s))
  = fetch_ids (effects s)
      ++ (call_conversation <$> submitted (trim (finalTranscriptRef s)) s).
Proof.
  unfold onend. destruct (is_empty (finalTranscriptRef s)) eqn:He.
  - apply is_empty_true in He. rewrite He. simpl. now rewrite app_nil_r.
  - simpl. apply handleUserInput_fetch.
Qed.

Lemma onend_session (s : State) :
  conversationIdRef (onend s) = conversationIdRef s
  /\ startPending (onend s) = startPending s.
Proof.
  unfold onend. destruct (is_empty (finalTranscriptRef s)); [easy|].
  simpl. apply handleUserInput_session.
Qed.

Lemma toggle_resume_fetch cl o (s : State) :
  fetch_ids (effects (toggleListening_resume cl o s)) = fetch_ids (effects s)
  /\ conversationIdRef (toggleListening_resume cl o s) = conversationIdRef s
  /\ startPending (toggleListening_resume cl o s) = startPending s.
Proof.
  unfold toggleListening_resume. destruct o.
  - destruct (cl_speechRecognition cl && negb (cl_isSpeaking cl)).
    + cbn - [fetch_ids]. destruct (recognizing s); calls.
    + calls.
  - calls.
Qed.

Lemma onresult_fetch (event : SpeechRecognitionEvent) (s : State) :
  effects (onresult event s) = effects s
  /\ conversationIdRef (onresult event s) = conversationIdRef s
  /\ startPending (onresult event s) = startPending s.
Proof.
  destruct (onresult_shape event s) as (i & f & ref & ->). easy.
Qed.

Lemma resume_fetch (o : FetchOutcome) (s : State) :
  fetch_ids (effects (handleUserInput_resume o s)) = fetch_ids (effects s)
  /\ (conversationIdRef (handleUserInput_resume o s) = conversationIdRef s
      \/ conversationIdRef (handleUserInput_resume o s) = None)
  /\ startPending (handleUserInput_resume o s) = startPending s.
Proof.
  unfold handleUserInput_resume. destruct o as [data_text|msg|msg].
  - unfold speakText. cbn - [fetch_ids]. destruct (speechSynthesis s); calls.
  - cbn - [fetch_ids]. destruct (includes _ _); calls.
  - cbn - [fetch_ids]. destruct (includes _ _); calls.
Qed.

(** Only the end of a capture session sends message calls, and with the
    session identifier of the moment. *)
Lemma step_fetch (e : Event) (s : State) :
  fetch_ids (effects (step e s))
  = fetch_ids (effects s)
      ++ match e with
         | RecognitionEnd =>
             call_conversation <$> submitted (trim (finalTranscriptRef s)) s
         | _ => []
         end.
Proof.
  destruct e as [o| |i o|event| | |i o| | | | | | ]; cbn [step];
    rewrite ?app_nil_r; try reflexivity.
  - unfold startNewConversation_resume.
    destruct o as [data_id|]; [destruct (is_empty data_id)|]; calls.
  - unfold toggleListening.
    destruct (isListening s), (speechRecognition s); calls.
  - destruct (mediaRequests s !! i); [|reflexivity].
    now rewrite (proj1 (toggle_resume_fetch _ _ _)).
  - now rewrite (proj1 (onresult_fetch _ _)).
  - apply onend_fetch.
  - destruct (outstanding s !! i); [|reflexivity].
    now rewrite (proj1 (resume_fetch _ _)).
  - calls.
Qed.

Lemma submitted_ids (t : string) (s : State) :
  call_conversation <$> submitted t s = []
  \/ exists c, conversationIdRef s = Some c
               /\ call_conversation <$> submitted t s = [c].
Proof.
  unfold submitted. destruct (_ || _); [now left|].
  destruct (conversationIdRef s) as [c|]; [|now left].
  right. now exists c.
Qed.

(** The session identifier changes only by a start reply, which sets it to
    a non-empty identifier or leaves it, and by a reset, which clears it. *)
Lemma step_session (e : Event) (s : State) :
  conversationIdRef (step e s) = conversationIdRef s
  \/ conversationIdRef (step e s) = None
  \/ exists data_id,
       e = ConversationStartReply (StartOk data_id)
       /\ is_empty data_id = false
       /\ conversationIdRef (step e s) = Some data_id.
Proof.
  destruct e as [o| |i o|event| | |i o| | | | | | ]; cbn [step]; auto.
  - destruct o as [data_id|]; simpl; auto.
    destruct (is_empty data_id) eqn:He; simpl; auto.
    right; right. now exists data_id.
  - unfold toggleListening.
    destruct (isListening s), (speechRecognition s); simpl; auto.
  - destruct (mediaRequests s !! i); auto.
    left. now rewrite (proj1 (proj2 (toggle_resume_fetch _ _ _))).
  - left. apply onresult_fetch.
  - left. apply onend_session.
  - destruct (outstanding s !! i); auto.
    destruct (resume_fetch o (set_outstanding (delete i (outstanding s)) s))
      as (_ & [H|H] & _); auto.
Qed.

Lemma started_ids_cons (e : Event) (evs : list Event) :
  started_ids (e :: evs)
  = match e with
    | ConversationStartReply (StartOk data_id) => [data_id]
    | _ => []
    end ++ started_ids evs.
Proof. destruct e as [[|]| | | | | | | | | | | | ]; reflexivity. Qed.

Lemma known_more (ids more : list string) (s : State) :
  known ids s -> known (ids ++ more) s.
Proof.
  intros [H1 H2]. split.
  - intros c Hc. destruct (H1 c Hc). split; [|assumption].
    apply elem_of_app. now left.
  - eapply Forall_impl; [exact H2|]. intros c [? ?]. split; [|assumption].
    apply elem_of_app. now left.
Qed.

Lemma step_known (ids : list string) (e : Event) (s : State) :
  known ids s -> known (ids ++ started_ids [e]) (step e s).
Proof.
  intros [H1 H2]. split.
  - intros c Hc.
    destruct (step_session e s) as [H|[H|(data_id & -> & He & H)]].
    + rewrite H in Hc. destruct (H1 c Hc). split; [|assumption].
      apply elem_of_app. now left.
    + congruence.
    + rewrite H in Hc. injection Hc as <-. split; [|exact He].
      apply elem_of_app. right. apply list_elem_of_here.
  - rewrite step_fetch. apply Forall_app. split.
    + eapply Forall_impl; [exact H2|]. intros c [? ?]. split; [|assumption].
      apply elem_of_app. now left.
    + destruct e; try constructor.
      destruct (submitted_ids (trim (finalTranscriptRef s)) s)
        as [->|(c & Hc & ->)]; [constructor|].
      destruct (H1 c Hc). repeat constructor; [|assumption].
      apply elem_of_app. now left.
Qed.

Lemma run_known (evs : list Event) (ids : list string) (s s' : State) :
  run evs s = Some s' -> known ids s -> known (ids ++ started_ids evs) s'.
Proof.
  revert ids s; induction evs as [|e evs IH]; intros ids s; cbn [run].
  - intros [= ->] H. now apply known_more.
  - destruct (possible e s); [|discriminate]. intros Hrun H.
    apply (step_known ids e) in H. apply (IH _ _ Hrun) in H.
    rewrite started_ids_cons. rewrite (started_ids_cons e []) in H.
    change (started_ids []) with (@nil string) in H.
    rewrite app_nil_r in H. now rewrite app_assoc.
Qed.

Lemma run_fetch_count (evs : list Event) (s s' : State) :
  run evs s = Some s' ->
  length (fetch_ids (effects s'))
  <= length (fetch_ids (effects s)) + ends evs.
Proof.
  revert s; induction evs as [|e evs IH]; intros s; cbn [run].
  - intros [= ->]. unfold ends. simpl. lia.
  - destruct (possible e s); [|discriminate]. intros H.
    apply IH in H. rewrite step_fetch, length_app in H.
    rewrite ends_cons.
    assert (length
              match e with
              | RecognitionEnd =>
                  call_conversation
                    <$> submitted (trim (finalTranscriptRef s)) s
              | _ => []
              end <= (if is_end e then 1 else 0)).
    { destruct e; simpl; try lia.
      destruct (submitted_ids (trim (finalTranscriptRef s)) s)
        as [->|(c & _ & ->)]; simpl; lia. }
    lia.
Qed.

Lemma mount_fetch config recognition vs selected :
  fetch_ids (effects (mount config recognition vs selected)) = [].
Proof. destruct config, recognition; reflexivity. Qed.

(** X3. Whatever happens after the page is shown, every message call
    carries a session identifier that the backend gave in answer to the
    start call, never an empty or invented one, and there is at most one
    call for each end of a capture session. *)
Theorem calls_carry_a_started_session
    (config recognition : bool) (vs : list SpeechSynthesisVoice)
    (selected : option SpeechSynthesisVoice) (evs : list Event) (s' : State) :
  run evs (mount config recognition vs selected) = Some s' ->
  Forall (fun c => c ∈ started_ids evs /\ is_empty c = false)
    (fetch_ids (effects s'))
  /\ length (fetch_ids (effects s')) <= ends evs.
Proof.
  intros Hrun. split.
  - apply (run_known evs []) in Hrun; [apply Hrun|].
    split; [discriminate|]. rewrite mount_fetch. constructor.
  - apply run_fetch_count in Hrun. now rewrite mount_fetch in Hrun.
Qed.

Lemma calls_carry_a_started_session_witness :
  exists s',
    run (ConversationStartReply (StartOk "c1") :: utter "hi")
      (mount true true [] None) = Some s'
    /\ Forall
         (fun c =>
            c ∈ started_ids
                  (ConversationStartReply (StartOk "c1") :: utter "hi")
            /\ is_empty c = false)
         (fetch_ids (effects s'))
    /\ length (fetch_ids (effects s'))
       <= ends (ConversationStartReply (StartOk "c1") :: utter "hi").
Proof.
  eexists. split; [vm_compute; reflexivity|].
  apply (calls_carry_a_started_session true true [] None
           (ConversationStartReply (StartOk "c1") :: utter "hi")).
  vm_compute. reflexivity.
Defined.



(** ** A browser without speech recognition *)

Lemma starts_app (l : list Effect) (s s' : State) :
  effects s' = effects s ++ l -> forallb (fun e => negb (is_start e)) l = true ->
  starts s' = starts s.
Proof.
  unfold starts. intros -> H. rewrite filter_app, length_app.
  assert (E : filter (fun e => is_start e = true) l = []).
  { induction l as [|e l IH]; [reflexivity|]. simpl in H.
    apply andb_true_iff in H as [He Hl]. rewrite filter_cons.
    destruct (decide (is_start e = true)) as [Hs|_]; [|now apply IH].
    rewrite Hs in He. discriminate. }
  rewrite E. simpl. lia.
Qed.

Lemma starts_same (s s' : State) : effects s' = effects s -> starts s' = starts s.
Proof. unfold starts. now intros ->. Qed.

Lemma resume_starts (o : FetchOutcome) (s : State) :
  starts (handleUserInput_resume o s) = starts s
  /\ speechRecognition (handleUserInput_resume o s) = speechRecognition s
  /\ recognizing (handleUserInput_resume o s) = recognizing s
  /\ isListening (handleUserInput_resume o s) = isListening s
  /\ mediaRequests (handleUserInput_resume o s) = mediaRequests s.
Proof.
  unfold handleUserInput_resume. destruct o as [data_text|msg|msg].
  - unfold speakText. cbn - [starts]. destruct (speechSynthesis s); cbn - [starts].
    + split; [|easy].
      eapply (starts_app [SynthCancel; SynthSpeak _]); [|reflexivity].
      cbn - [starts]. now rewrite <- app_assoc.
    + easy.
  - cbn - [starts]. destruct (includes _ _); cbn - [starts]; (split; [|easy]).
    + now apply (starts_app [Navigate "/auth"]).
    + now apply starts_same.
  - cbn - [starts]. destruct (includes _ _); cbn - [starts]; (split; [|easy]).
    + now apply (starts_app [Navigate "/auth"]).
    + now apply starts_same.
Qed.

Lemma step_deaf (e : Event) (s : State) :
  deaf s -> possible e s = true ->
  deaf (step e s) /\ starts (step e s) = starts s.
Proof.
  intros (Hr & Hg & Hl & Hm) He. unfold deaf.
  destruct e as [o| |i o|event| | |i o| | | | | | ]; cbn [step];
    try (cbn [possible] in He; congruence);
    try (split; [easy | now apply starts_same]).
  - unfold startNewConversation_resume, startNewConversation_failed,
      navigate, emit.
    destruct o as [data_id|]; [destruct (is_empty data_id)|]; cbn - [starts];
      (split; [easy|]);
      first [ now apply starts_same
            | now apply (starts_app [Navigate "/auth"]) ].
  - unfold toggleListening. rewrite Hl. cbn - [starts]. split.
    + repeat split; try assumption.
      apply Forall_app. split; [assumption|]. repeat constructor. exact Hr.
    + now apply (starts_app [GetUserMedia]).
  - destruct (mediaRequests s !! i) as [cl|] eqn:Hi; [|now split].
    assert (Hcl : cl_speechRecognition cl = false).
    { rewrite Forall_lookup in Hm. exact (Hm i cl Hi). }
    assert (Hd : Forall (fun cl => cl_speechRecognition cl = false)
                   (delete i (mediaRequests s))).
    { now apply Forall_delete. }
    unfold toggleListening_resume. rewrite Hcl. destruct o; cbn - [starts].
    + split; [easy|]. now apply (starts_app [StreamTracksStop]).
    + split; [easy|]. eapply (starts_app [Alert _]); reflexivity.
  - destruct (outstanding s !! i); [|now split].
    destruct (resume_starts o (set_outstanding (delete i (outstanding s)) s))
      as (S1 & S2 & S3 & S4 & S5).
    rewrite S1, S2, S3, S4, S5. easy.
  - unfold handleReset, navigate, emit. cbn - [starts]. split; [easy|].
    now apply (starts_app [Navigate "/auth"]).
Qed.

(** X5. In a browser without a recognition engine the controller stays
    deaf: whatever is clicked and whatever the browser answers,
    [recognition.start()] is never called, nothing is listened to and no
    user Turn appears. *)
Theorem without_recognition_nothing_is_heard
    (evs : list Event) (s s' : State) :
  deaf s -> run evs s = Some s' ->
  deaf s' /\ starts s' = starts s /\ user_turns s' = user_turns s.
Proof.
  revert s; induction evs as [|e evs IH]; intros s Hd; cbn [run].
  - now intros [= <-].
  - destruct (possible e s) eqn:He; [|discriminate]. intros Hrun.
    destruct (step_deaf e s Hd He) as (Hd' & Hs).
    destruct (IH _ Hd' Hrun) as (D & S & U).
    split; [exact D|]. split; [congruence|].
    rewrite U, step_user_turns.
    destruct e; rewrite ?app_nil_r; try reflexivity.
    destruct Hd as (_ & Hg & _). cbn [possible] in He. congruence.
Qed.

Lemma without_recognition_nothing_is_heard_witness :
  exists s',
    run [ClickMic; MediaReply 0 MediaGranted; ClickMic]
      (mount true false [] None) = Some s'
    /\ deaf s'
    /\ starts s' = starts (mount true false [] None)
    /\ user_turns s' = user_turns (mount true false [] None).
Proof.
  eexists. split; [vm_compute; reflexivity|].
  apply (without_recognition_nothing_is_heard
           [ClickMic; MediaReply 0 MediaGranted; ClickMic]
           (mount true false [] None)).
  - repeat split. constructor.
  - vm_compute. reflexivity.
Defined.

(** ** The queue of the synthesiser *)

Lemma step_queue (e : Event) (s : State) :
  length (queue s) <= 1 -> length (queue (step e s)) <= 1.
Proof.
  intros H. unfold queue in *.
  destruct e as [o| |i o|event| | |i o| | | | | | ]; cbn [step];
    try exact H.
  - unfold startNewConversation_resume.
    destruct o as [data_id|]; [destruct (is_empty data_id)|]; exact H.
  - unfold toggleListening.
    destruct (isListening s), (speechRecognition s); exact H.
  - destruct (mediaRequests s !! i) as [cl|]; [|exact H].
    unfold toggleListening_resume. destruct o; [|exact H].
    destruct (_ && _); [|exact H]. cbn. destruct (recognizing s); exact H.
  - destruct (onresult_shape event s) as (a & b & c & ->). exact H.
  - unfold onend. destruct (is_empty (finalTranscriptRef s)); [exact H|].
    cbn. unfold handleUserInput. destruct (is_empty (trim _)); [exact H|].
    cbn. destruct (repoConfig s); [|exact H].
    cbn. destruct (conversationIdRef s); exact H.
  - destruct (outstanding s !! i); [|exact H].
    unfold handleUserInput_resume. destruct o as [data_text|msg|msg].
    + unfold speakText. cbn.
      destruct (speechSynthesis s) eqn:E; cbn; [lia|].
      rewrite E. cbn. lia.
    + cbn. destruct (includes _ _); exact H.
    + cbn. destruct (includes _ _); exact H.
  - cbn. destruct (speechSynthesis s) as [[|u q]|]; cbn in *; lia.
Qed.

(** X6. A reply is never queued behind another: [speakText] cancels the
    synthesiser before it speaks, so at every moment of every run at most
    one utterance is waiting or being spoken. *)
Theorem replies_preempt (evs : list Event) (s s' : State) :
  length (queue s) <= 1 -> run evs s = Some s' -> length (queue s') <= 1.
Proof.
  revert s; induction evs as [|e evs IH]; intros s H; cbn [run].
  - now intros [= <-].
  - destruct (possible e s); [|discriminate].
    apply IH. now apply step_queue.
Qed.

Lemma replies_preempt_witness :
  exists s',
    run (utter "hi" ++ utter "there"
           ++ [BackendReply 0 (ResponseOk "hello"); UtteranceStart;
               BackendReply 0 (ResponseOk "again")]) started = Some s'
    /\ length (queue s') <= 1.
Proof.
  eexists. split; [vm_compute; reflexivity|].
  apply (replies_preempt
           (utter "hi" ++ utter "there"
              ++ [BackendReply 0 (ResponseOk "hello"); UtteranceStart;
                  BackendReply 0 (ResponseOk "again")]) started).
  - vm_compute. lia.
  - vm_compute. reflexivity.
Defined.

(** ** An error of the engine *)


End SpeechRunsSpec.

Module VoiceSelectionSpec.

Import SpeechConversation VoiceSelection.

Example top_of_six :
  name <$> topVoices six_voices
  = ["Google en-US-Wavenet-D"; "Microsoft Aria Online (Natural) Neural";
     "Samantha"; "Daniel"].
Proof. vm_compute. reflexivity. Qed.

(** ** The comparison and the sort *)

(** The callback compares ranks: it is a consistent comparison. *)
Lemma compareVoices_rank (a b : SpeechSynthesisVoice) :
  ((compareVoices a b < 0)%Z <-> rank a < rank b)
  /\ ((0 < compareVoices a b)%Z <-> rank b < rank a)
  /\ (compareVoices a b = 0%Z <-> rank a = rank b).
Proof.
  unfold compareVoices, rank.
  destruct (named "wavenet" a), (named "wavenet" b), (named "neural" a),
    (named "neural" b); simpl; repeat split; intros; lia.
Qed.

Lemma after_rank (a b : SpeechSynthesisVoice) :
  (0 <? compareVoices a b)%Z = true <-> rank b < rank a.
Proof.
  rewrite Z.ltb_lt. apply compareVoices_rank.
Qed.

Lemma insert_perm {A} (compareFn : A -> A -> Z) (a : A) (l : list A) :
  insert compareFn a l ≡ₚ a :: l.
Proof.
  induction l as [|b l IH]; simpl; [reflexivity|].
  destruct (0 <? compareFn a b)%Z; [|reflexivity].
  rewrite IH. apply Permutation_swap.
Qed.

Lemma sort_perm {A} (compareFn : A -> A -> Z) (l : list A) :
  sort compareFn l ≡ₚ l.
Proof.
  induction l as [|a l IH]; simpl; [reflexivity|].
  now rewrite insert_perm, IH.
Qed.

Lemma insert_ranked (a : SpeechSynthesisVoice)
    (l : list SpeechSynthesisVoice) :
  ranked l -> ranked (insert compareVoices a l).
Proof.
  unfold ranked. induction l as [|b l IH]; simpl; intros H.
  - repeat constructor.
  - apply StronglySorted_cons in H as [Hb Hl].
    destruct (0 <? compareVoices a b)%Z eqn:E.
    + apply after_rank in E. apply StronglySorted_cons. split; [|auto].
      rewrite insert_perm. constructor; [lia | exact Hb].
    + assert (Hab : rank a <= rank b).
      { destruct (le_lt_dec (rank a) (rank b)) as [?|Hlt]; [assumption|].
        apply after_rank in Hlt. congruence. }
      apply StronglySorted_cons. split.
      * constructor; [exact Hab|].
        eapply Forall_impl; [exact Hb|]. simpl. intros; lia.
      * apply StronglySorted_cons. now split.
Qed.

Lemma sort_ranked (l : list SpeechSynthesisVoice) :
  ranked (sort compareVoices l).
Proof.
  induction l as [|a l IH]; simpl; [constructor|].
  now apply insert_ranked.
Qed.

Lemma of_rank_insert (r : nat) (a : SpeechSynthesisVoice)
    (l : list SpeechSynthesisVoice) :
  of_rank r (insert compareVoices a l) = of_rank r (a :: l).
Proof.
  unfold of_rank. induction l as [|b l IH]; simpl; [reflexivity|].
  destruct (0 <? compareVoices a b)%Z eqn:E; [|reflexivity].
  apply after_rank in E.
  rewrite (filter_cons _ b), IH, !filter_cons.
  destruct (decide (rank a = r)), (decide (rank b = r));
    try reflexivity; lia.
Qed.

Lemma of_rank_sort (r : nat) (l : list SpeechSynthesisVoice) :
  of_rank r (sort compareVoices l) = of_rank r l.
Proof.
  induction l as [|a l IH]; [reflexivity|].
  simpl. rewrite of_rank_insert. unfold of_rank in *.
  now rewrite !filter_cons, IH.
Qed.

(** ** The voices on offer *)

Lemma loadVoices_available (p : Panel) :
  availableVoices (loadVoices p) = topVoices (voices (controller p))
  /\ voices (controller (loadVoices p)) = voices (controller p).
Proof.
  unfold loadVoices.
  destruct (selectedVoiceRef (controller p)),
    (topVoices (voices (controller p))); split; reflexivity.
Qed.

Lemma topVoices_elem (v : SpeechSynthesisVoice)
    (vs : list SpeechSynthesisVoice) :
  v ∈ topVoices vs -> v ∈ vs /\ preferred v = true.
Proof.
  unfold topVoices. intros H.
  assert (H' : v ∈ sort compareVoices (filter (fun v => preferred v = true) vs)).
  { apply elem_of_take in H as (i & Hi & _).
    eapply list_elem_of_lookup_2, Hi. }
  rewrite sort_perm in H'. apply list_elem_of_filter in H'. tauto.
Qed.

(** X8. The voices offered in the settings are at most four, all of them
    English voices of the browser with one of the six names; they are in
    order of quality, and no voice that is left out is better than one
    that is offered.  When the browser has no more than four such voices,
    all of them are offered. *)
Theorem offered_voices (p : Panel) :
  let vs := voices (controller p) in
  let offered := availableVoices (loadVoices p) in
  length offered <= 4
  /\ (forall v, v ∈ offered -> v ∈ vs /\ preferred v = true)
  /\ ranked offered
  /\ (forall v w,
        v ∈ vs -> preferred v = true -> v ∉ offered -> w ∈ offered ->
        rank w <= rank v)
  /\ (length (filter (fun v => preferred v = true) vs) <= 4 ->
      offered ≡ₚ filter (fun v => preferred v = true) vs).
Proof.
  intros vs offered. subst offered.
  rewrite (proj1 (loadVoices_available p)). fold vs. unfold topVoices.
  set (sorted := sort compareVoices (filter (fun v => preferred v = true) vs)).
  assert (Hs : ranked (take 4 sorted ++ drop 4 sorted)).
  { rewrite take_drop. apply sort_ranked. }
  split; [rewrite length_take; lia|].
  split; [intros v; apply topVoices_elem|].
  split; [eapply StronglySorted_app_1_l, Hs|].
  split.
  - intros v w Hv Hp Hout Hw.
    assert (Hin : v ∈ take 4 sorted ++ drop 4 sorted).
    { rewrite take_drop. unfold sorted. rewrite sort_perm.
      apply list_elem_of_filter. now split. }
    apply elem_of_app in Hin as [Hin|Hin]; [contradiction|].
    exact (StronglySorted_app_1_elem_of _ _ _ _ _ Hs Hw Hin).
  - intros Hlen. rewrite take_ge.
    + apply sort_perm.
    + unfold sorted. now rewrite sort_perm.
Qed.

(** X9. Among voices of the same quality the order of the browser decides:
    the offered voices of a rank are the first of that rank in the
    browser's list of preferred voices, in the same order. *)
Theorem offered_voices_keep_order (r : nat) (p : Panel) :
  of_rank r (availableVoices (loadVoices p))
  `prefix_of`
  of_rank r (filter (fun v => preferred v = true) (voices (controller p))).
Proof.
  rewrite (proj1 (loadVoices_available p)). unfold topVoices.
  set (sorted :=
         sort compareVoices
           (filter (fun v => preferred v = true) (voices (controller p)))).
  rewrite <- (of_rank_sort r (filter _ _)). fold sorted.
  rewrite <- (take_drop 4 sorted) at 2. unfold of_rank.
  rewrite filter_app. now eexists.
Qed.

(** ** The selected voice *)


Lemma find_unique (vs : list SpeechSynthesisVoice)
    (v : SpeechSynthesisVoice) :
  NoDup (name <$> vs) -> v ∈ vs ->
  find (fun voice => String.eqb (name voice) (name v)) vs = Some v.
Proof.
  induction vs as [|x vs IH]; intros Hnd Hin.
  - now apply elem_of_nil in Hin.
  - simpl. rewrite fmap_cons in Hnd. apply NoDup_cons in Hnd as [Hx Hnd].
    apply elem_of_cons in Hin as [->|Hin].
    + now rewrite String.eqb_refl.
    + destruct (String.eqb (name x) (name v)) eqn:E; [|now apply IH].
      apply String.eqb_eq in E. exfalso. apply Hx. rewrite E.
      now apply list_elem_of_fmap_2.
Qed.







(** X11. Where the browser does not give one name to two voices, picking
    a voice on offer selects that very voice, and the next reply is spoken
    with it. *)
Theorem picked_voice_speaks
    (voiceSettings : VoiceSettings) (text : string) (p : Panel)
    (v : SpeechSynthesisVoice) :
  NoDup (name <$> voices (controller p)) ->
  v ∈ availableVoices (loadVoices p) ->
  let p' := handleVoiceChange (name v) (loadVoices p) in
  selectedVoiceRef (controller p') = Some v
  /\ selectedVoiceName p' = name v
  /\ u_voice (make_utterance voiceSettings text (controller p')) = Some v.
Proof.
  intros Hnd Hin. destruct (loadVoices_available p) as (Ha & Hv).
  rewrite Ha in Hin. apply topVoices_elem in Hin as [Hin _].
  cbv zeta. unfold handleVoiceChange.
  rewrite Hv, (find_unique _ v Hnd Hin). simpl. auto.
Qed.

Lemma picked_voice_speaks_witness :
  let p := panel (set_voices (drop 1 six_voices) started) in
  let daniel := {| name := "Daniel"; lang := "en-GB" |} in
  (selectedVoiceRef (controller (handleVoiceChange "Daniel" (loadVoices p)))
   = Some daniel
   /\ selectedVoiceName (handleVoiceChange "Daniel" (loadVoices p)) = "Daniel"
   /\ u_voice
        (make_utterance initialVoiceSettings "hello"
           (controller (handleVoiceChange "Daniel" (loadVoices p))))
      = Some daniel).
Proof.
  apply (picked_voice_speaks initialVoiceSettings "hello"
           (panel (set_voices (drop 1 six_voices) started))
           {| name := "Daniel"; lang := "en-GB" |}).
  - vm_compute. repeat constructor; rewrite ?elem_of_cons, ?elem_of_nil;
      intuition discriminate.
  - vm_compute. do 3 apply list_elem_of_further. apply list_elem_of_here.
Defined.

(** Two voices of one name: the pick is looked up by name among all the
    voices of the browser, and the French Daniel, first in the list and not
    on offer, is the one selected. *)
Example same_name_picks_first :
  availableVoices (loadVoices (panel (set_voices six_voices started)))
  = [ {| name := "Google en-US-Wavenet-D"; lang := "en-US" |};
      {| name := "Microsoft Aria Online (Natural) Neural"; lang := "en-US" |};
      {| name := "Samantha"; lang := "en-US" |};
      {| name := "Daniel"; lang := "en-GB" |} ]
  /\ selectedVoiceRef
       (controller
          (handleVoiceChange "Daniel"
             (loadVoices (panel (set_voices six_voices started)))))
     = Some {| name := "Daniel"; lang := "fr-FR" |}.
Proof. split; vm_compute; reflexivity. Qed.

End VoiceSelectionSpec.

Module VoiceChatRunsSpec.

Import VoiceChat VoiceChatRuns VoiceChatSpec.

(** ** Fields that teardown does not write *)

Lemma stopWebRTC_waiting (s : State) :
  isLoading (stopWebRTC s) = isLoading s /\ setup (stopWebRTC s) = setup s.
Proof.
  unfold stopWebRTC.
  change (isLoading (disconnect_sourceOutput (disconnect_sourceInput
            (close_audioContext (close_peerConnection s)))) = isLoading s
          /\ setup (disconnect_sourceOutput (disconnect_sourceInput
               (close_audioContext (close_peerConnection s)))) = setup s).
  assert (L4 : forall x, isLoading (disconnect_sourceOutput x) = isLoading x) by block.
  assert (L3 : forall x, isLoading (disconnect_sourceInput x) = isLoading x) by block.
  assert (L2 : forall x, isLoading (close_audioContext x) = isLoading x) by block.
  assert (L1 : forall x, isLoading (close_peerConnection x) = isLoading x) by block.
  assert (S4 : forall x, setup (disconnect_sourceOutput x) = setup x) by block.
  assert (S3 : forall x, setup (disconnect_sourceInput x) = setup x) by block.
  assert (S2 : forall x, setup (close_audioContext x) = setup x) by block.
  assert (S1 : forall x, setup (close_peerConnection x) = setup x) by block.
  now rewrite L4, L3, L2, L1, S4, S3, S2, S1.
Qed.

(** ** Connections and their senders *)

Lemma open_alter (f : RTCPeerConnection -> RTCPeerConnection) (s s' : State)
    (p q : nat) :
  connections s' = alter f p (connections s) ->
  (forall pc, connectionState (f pc) = connectionState pc) ->
  open s' q = open s q.
Proof.
  unfold open. intros -> Hf.
  destruct (decide (p = q)) as [->|Hne].
  - rewrite list_lookup_alter_eq. destruct (connections s !! q); simpl;
      [now rewrite Hf | reflexivity].
  - now rewrite list_lookup_alter_ne.
Qed.

Lemma getSenders_alter (f : RTCPeerConnection -> RTCPeerConnection)
    (s s' : State) (p q : nat) :
  connections s' = alter f p (connections s) ->
  (forall pc, senders (f pc) = senders pc) ->
  getSenders s' q = getSenders s q.
Proof.
  unfold getSenders. intros -> Hf.
  destruct (decide (p = q)) as [->|Hne].
  - rewrite list_lookup_alter_eq. destruct (connections s !! q); simpl;
      [now rewrite Hf | reflexivity].
  - now rewrite list_lookup_alter_ne.
Qed.

Lemma getSenders_same (s s' : State) (q : nat) :
  connections s' = connections s -> getSenders s' q = getSenders s q.
Proof. unfold getSenders. now intros ->. Qed.

Lemma open_same (s s' : State) (q : nat) :
  connections s' = connections s -> open s' q = open s q.
Proof. unfold open. now intros ->. Qed.

(** After teardown no connection is open, if none but the current one
    was. *)
Lemma stopWebRTC_closed (s : State) (q : nat) :
  one_call s -> open (stopWebRTC s) q = false.
Proof.
  intros H. unfold open. rewrite stopWebRTC_connections.
  destruct (peerConnectionRef s) as [p|] eqn:Hp.
  - destruct (decide (p = q)) as [->|Hne].
    + rewrite list_lookup_alter_eq. now destruct (connections s !! q).
    + rewrite list_lookup_alter_ne by assumption.
      destruct (open s q) eqn:Ho.
      * apply H in Ho. congruence.
      * exact Ho.
  - destruct (open s q) eqn:Ho; [|exact Ho]. apply H in Ho. congruence.
Qed.

#[local] Arguments stopWebRTC : simpl never.

(** ** States with no call *)

Lemma resting_steady (s : State) :
  peerConnectionRef s = None -> isMuted s = false ->
  (forall q, open s q = false) ->
  (is_Some (setup s) -> isLoading s = true) ->
  steady s.
Proof.
  intros P M O L. unfold steady, one_call, muted_as_shown.
  repeat split; try tauto.
  - rewrite P. intros [x Hx]. discriminate.
  - intros p Hp. rewrite O in Hp. discriminate.
  - intros p t track Hp. congruence.
Qed.

Lemma stopWebRTC_steady (s : State) :
  one_call s -> (is_Some (setup s) -> isLoading s = true) ->
  steady (stopWebRTC s).
Proof.
  intros H L. destruct (stopWebRTC_waiting s) as (Hl & Hs).
  apply resting_steady.
  - apply stopWebRTC_refs.
  - apply stopWebRTC_flags.
  - intros q. now apply stopWebRTC_closed.
  - now rewrite Hl, Hs.
Qed.

Lemma failed_steady (message : string) (s : State) :
  one_call s -> steady (setupWebRTC_failed message s).
Proof.
  intros H. unfold setupWebRTC_failed. apply resting_steady.
  - cbn. apply stopWebRTC_refs.
  - cbn. apply stopWebRTC_flags.
  - intros q.
    rewrite (open_same (stopWebRTC (set_error (Some message) s)))
      by reflexivity.
    apply stopWebRTC_closed. exact H.
  - cbn. intros [x Hx]. discriminate.
Qed.

(** ** Steps that stay in the call *)

Lemma same_call_fields (s s' : State) :
  isMuted s' = isMuted s -> peerConnectionRef s' = peerConnectionRef s ->
  tracks s' = tracks s -> connections s' = connections s ->
  same_call s s'.
Proof.
  intros M P T C. repeat split; try assumption; intros q.
  - now apply open_same.
  - now apply getSenders_same.
Qed.

Lemma steady_update (s s' : State) :
  same_call s s' ->
  (peerConnectionRef s = None -> isMuted s = false) ->
  one_call s -> muted_as_shown s ->
  (is_Some (peerConnectionRef s) ->
   isRecording s' = true \/ is_Some (setup s')) ->
  (is_Some (setup s') -> isLoading s' = true) ->
  (setup s' = Some AwaitMedia -> peerConnectionRef s = None) ->
  steady s'.
Proof.
  intros (M & P & T & O & G) I1 H1 H2 J I5 I4.
  unfold steady, one_call, muted_as_shown.
  rewrite M, P, T. repeat split; try assumption.
  - intros p Hp. rewrite O in Hp. now apply H1.
  - intros p t track Hp Hin. rewrite G in Hin. now apply (H2 p t track).
Qed.

Lemma steady_same_call (s s' : State) :
  same_call s s' -> steady s ->
  isRecording s' = isRecording s -> setup s' = setup s ->
  isLoading s' = isLoading s ->
  steady s'.
Proof.
  intros C (I1 & J & I5 & I4 & H1 & H2) R S L.
  apply (steady_update s s'); try assumption; rewrite ?R, ?S, ?L; assumption.
Qed.

(** ** A new connection *)

Lemma new_call (audio_tracks : nat) (random_id : string) (s : State) :
  one_call s -> peerConnectionRef s = None -> isMuted s = false ->
  let s1 :=
    new_peerConnection (seq (length (tracks s)) audio_tracks)
      (media_granted audio_tracks random_id s) in
  one_call s1 /\ muted_as_shown s1.
Proof.
  intros H P M s1. split.
  - intros q Hq. unfold s1, open in Hq. cbn in Hq. cbn.
    destruct (lt_eq_lt_dec q (length (connections s))) as [[Hlt|Heq]|Hgt]; [| subst q |].
    + rewrite lookup_app_l in Hq by assumption.
      assert (Ho : open s q = true) by exact Hq.
      apply H in Ho. congruence.
    + reflexivity.
    + rewrite lookup_ge_None_2 in Hq; [discriminate|].
      rewrite length_app. simpl. lia.
  - intros p t track Hp Hin Ht Hk. unfold s1 in *. cbn in Hp, Ht |- *.
    injection Hp as <-. unfold getSenders in Hin. cbn in Hin.
    rewrite list_lookup_middle in Hin by reflexivity. cbn in Hin.
    apply list_elem_of_fmap in Hin as (u & [= ->] & Hu).
    apply elem_of_seq in Hu.
    rewrite lookup_app_r in Ht by lia.
    apply lookup_replicate in Ht as [-> _]. now rewrite M.
Qed.

#[local] Arguments setupWebRTC_failed : simpl never.

Lemma toggleMute_steady (s : State) : steady s -> steady (toggleMute s).
Proof.
  intros (I1 & J & I5 & I4 & H1 & H2). unfold toggleMute.
  destruct (peerConnectionRef s) as [p|] eqn:Hp.
  2:{ unfold steady. rewrite Hp. tauto. }
  unfold steady, one_call, muted_as_shown. cbn. rewrite Hp.
  repeat split; try assumption; try discriminate.
  - intros q Hq. rewrite <- Hp. apply H1. exact Hq.
  - intros q t track [= <-] Hin Ht Hk.
    change (getSenders _ p) with (getSenders s p) in Hin.
    rewrite alter_senders_lookup in Ht by apply mute_track_idempotent.
    rewrite bool_decide_eq_true_2 in Ht by assumption.
    destruct (tracks s !! t) as [x|]; [|discriminate].
    injection Ht as <-. unfold mute_track in *.
    destruct (bool_decide (kind x = audio)) eqn:E; [reflexivity|].
    apply bool_decide_eq_false in E. contradiction.
Qed.

Lemma setup_resume_steady (o : SetupOutcome) (s : State) :
  steady s -> possible (SetupReply o) s = true ->
  steady (setupWebRTC_resume o s).
Proof.
  intros St He. pose proof St as (I1 & J & I5 & I4 & H1 & H2).
  cbn [possible] in He. unfold setupWebRTC_resume.
  destruct (setup s) as [stage|] eqn:Hs; [|discriminate].
  assert (Hl : isLoading s = true) by (apply I5; eauto).
  clear J I5.
  destruct stage as [| |p sdp| |p answer], o; cbn [expects] in He;
    try discriminate; try (apply failed_steady; exact H1).
  - (* the stream, with connection and context *)
    assert (P : peerConnectionRef s = None) by now apply I4.
    destruct (new_call audio_tracks random_id s H1 P (I1 P)) as (N1 & N2).
    apply (steady_update
             (new_peerConnection (seq (length (tracks s)) audio_tracks)
                (media_granted audio_tracks random_id s))
             (setupWebRTC_media audio_tracks random_id s));
      [|cbn; discriminate|exact N1|exact N2|..].
    + apply same_call_fields; reflexivity.
    + intros _. right. cbn. eauto.
    + intros _. exact Hl.
    + cbn. discriminate.
  - (* the constructor of the context throws *)
    assert (P : peerConnectionRef s = None) by now apply I4.
    destruct (new_call audio_tracks random_id s H1 P (I1 P)) as (N1 & N2).
    apply failed_steady. exact N1.
  - (* the offer *)
    destruct (peerConnectionRef s) as [q|] eqn:P;
      [|apply failed_steady; exact H1].
    apply (steady_update s);
      [ apply same_call_fields; reflexivity
      | rewrite P; discriminate | exact H1 | exact H2
      | intros _; right; cbn; eauto
      | intros _; exact Hl
      | cbn; discriminate ].
  - (* the local description *)
    set (s1 := set_connections
                 (alter (set_localDescription sdp) p (connections s)) s).
    assert (C : same_call s s1).
    { repeat split; intros q.
      - now apply (open_alter (set_localDescription sdp) s s1 p).
      - now apply (getSenders_alter (set_localDescription sdp) s s1 p). }
    change (peerConnectionRef s1) with (peerConnectionRef s).
    destruct (peerConnectionRef s) as [q|] eqn:P.
    + apply (steady_update s);
        [ | rewrite P; discriminate | exact H1 | exact H2
          | intros _; right; cbn; eauto
          | intros _; exact Hl
          | cbn; discriminate ].
      destruct C as (C1 & C2 & C3 & C4 & C5).
      repeat split; assumption.
    + apply failed_steady. intros r Hr.
      destruct C as (_ & _ & _ & C4 & _). rewrite C4 in Hr.
      apply H1 in Hr. exact Hr.
  - (* the answer *)
    destruct (peerConnectionRef s) as [q|] eqn:P;
      [|apply failed_steady; exact H1].
    apply (steady_update s);
      [ apply same_call_fields; reflexivity
      | rewrite P; discriminate | exact H1 | exact H2
      | intros _; right; cbn; eauto
      | intros _; exact Hl
      | cbn; discriminate ].
  - (* the remote description *)
    destruct St as (I1' & _).
    apply (steady_update s);
      [ | exact I1' | exact H1 | exact H2
        | intros _; now left
        | cbn; intros [x Hx]; discriminate
        | cbn; discriminate ].
    repeat split; intros q.
    + now apply (open_alter (set_remoteDescription answer) s _ p).
    + now apply (getSenders_alter (set_remoteDescription answer) s _ p).
Qed.

Lemma steady_idle (s : State) :
  steady s -> isLoading s = false -> setup s = None.
Proof.
  intros (_ & _ & I5 & _) L. destruct (setup s) eqn:E; [|reflexivity].
  rewrite I5 in L by eauto. discriminate.
Qed.

Lemma connection_change_steady (p : nat) (state : RTCPeerConnectionState)
    (s : State) :
  steady s -> possible (ConnectionStateChange p state) s = true ->
  steady (step (ConnectionStateChange p state) s).
Proof.
  intros St He. pose proof St as (I1 & J & I5 & I4 & H1 & H2).
  cbn [possible] in He. apply andb_true_iff in He as [Ho Hc].
  assert (P : peerConnectionRef s = Some p) by now apply H1.
  cbn [step].
  set (s1 := set_connections
               (alter (set_connectionState state) p (connections s)) s).
  assert (Hpc : connections s1 !! p
                = set_connectionState state <$> connections s !! p).
  { unfold s1. cbn. apply list_lookup_alter_eq. }
  assert (O1 : forall q, open s1 q = open s q).
  { intros q. unfold open. unfold s1. cbn.
    destruct (decide (p = q)) as [<-|Hne].
    - rewrite list_lookup_alter_eq. unfold open in Ho.
      destruct (connections s !! p) as [pc|]; [|discriminate]. cbn.
      rewrite Ho. exact Hc.
    - now rewrite list_lookup_alter_ne. }
  assert (C : same_call s s1).
  { repeat split; [exact O1|]. intros q.
    now apply (getSenders_alter (set_connectionState state) s s1 p). }
  assert (St1 : steady s1) by (apply (steady_same_call s); auto).
  unfold handleConnectionStateChange.
  change (peerConnectionRef s1) with (peerConnectionRef s). rewrite P, Hpc.
  unfold open in Ho. destruct (connections s !! p) as [pc|]; [|discriminate].
  cbn [fmap option_fmap option_map].
  set (s2 := set_isConnected _ s1).
  assert (St2 : steady s2).
  { apply (steady_same_call s1); try reflexivity; [|exact St1].
    apply same_call_fields; reflexivity. }
  destruct (bool_decide (_ ∈ _)).
  - destruct St2 as (_ & _ & L2 & _ & O2 & _). now apply stopWebRTC_steady.
  - exact St2.
Qed.

Lemma step_steady (e : Event) (s : State) :
  steady s -> possible e s = true -> steady (step e s).
Proof.
  intros St He. pose proof St as (I1 & J & I5 & I4 & H1 & H2).
  destruct e as [o| |o|p candidate|k|p state| | ].
  - (* the configuration arrives *)
    cbn [possible] in He. apply andb_true_iff in He as [He _].
    apply andb_true_iff in He as [_ Hs]. apply bool_decide_eq_true in Hs.
    cbn [step]. unfold fetchRTCConfig_resume.
    apply (steady_update s); try assumption.
    + destruct o; apply same_call_fields; reflexivity.
    + intros Hp. destruct (J Hp) as [R|S]; [left|right].
      * destruct o; exact R.
      * rewrite Hs in S. destruct S. discriminate.
    + destruct o; cbn; rewrite Hs; intros [x Hx]; discriminate.
    + destruct o; cbn; rewrite Hs; discriminate.
  - (* the main button *)
    cbn [possible] in He. apply andb_true_iff in He as [He Hk].
    apply andb_true_iff in He as [Hl _]. apply negb_true_iff in Hl.
    cbn [step]. destruct (isRecording s) eqn:R.
    + now apply stopWebRTC_steady.
    + assert (S : setup s = None) by now apply steady_idle.
      assert (P : peerConnectionRef s = None).
      { destruct (peerConnectionRef s) eqn:E; [|reflexivity].
        destruct J as [J|J]; eauto; [congruence|].
        rewrite S in J. destruct J. discriminate. }
      unfold setupWebRTC. destruct (is_empty (apiKey s)).
      * apply (steady_same_call s); try reflexivity; [|exact St].
        apply same_call_fields; reflexivity.
      * apply (steady_update s); try assumption.
        -- apply same_call_fields; reflexivity.
        -- intros _. right. cbn. eauto.
        -- intros _. reflexivity.
        -- intros _. exact P.
  - now apply setup_resume_steady.
  - (* a candidate *)
    cbn [step]. unfold handleIceCandidate.
    destruct candidate; exact St.
  - (* a remote track *)
    cbn [step]. unfold handleTrack.
    destruct k, (audioContextRef s); exact St.
  - now apply connection_change_steady.
  - now apply toggleMute_steady.
  - now apply stopWebRTC_steady.
Qed.

Lemma mount_steady (key : string) : steady (mount key).
Proof. apply resting_steady; reflexivity. Qed.

(** X12. Whatever the user clicks and whatever the browser and the
    backend answer, there is never more than one call: a connection that
    still raises events is the one the controller holds.  The mute flag on
    the screen is what the audio tracks of that connection do, and it is
    off whenever there is no connection. *)
Theorem one_call_muted_as_shown (key : string) (evs : list Event) (s : State) :
  run evs (mount key) = Some s ->
  one_call s /\ muted_as_shown s
  /\ (peerConnectionRef s = None -> isMuted s = false).
Proof.
  intros Hrun.
  assert (St : steady s).
  { revert Hrun. generalize (mount_steady key). generalize (mount key).
    induction evs as [|e evs IH]; intros s0 St; cbn [run].
    - now intros [= <-].
    - destruct (possible e s0) eqn:He; [|discriminate].
      apply IH. now apply step_steady. }
  destruct St as (I1 & _ & _ & _ & H1 & H2). auto.
Qed.

(** ** Local tracks *)

Lemma released_held (s : State) : released s -> held s.
Proof.
  intros H t track Ht He. unfold released in H. rewrite Forall_lookup in H.
  rewrite (H t track Ht) in He. discriminate.
Qed.

Lemma held_released (s : State) :
  held s -> peerConnectionRef s = None -> released s.
Proof.
  intros H P. apply Forall_lookup. intros t track Ht.
  destruct (ended track) eqn:He; [reflexivity|].
  destruct (H t track Ht He) as (p & Hp & _). congruence.
Qed.

Lemma held_same_call (s s' : State) : same_call s s' -> held s -> held s'.
Proof.
  intros (_ & P & T & _ & G) H t track Ht He. rewrite T in Ht.
  destruct (H t track Ht He) as (p & Hp & Hin).
  exists p. now rewrite P, G.
Qed.

Lemma stopWebRTC_held (s : State) : held s -> held (stopWebRTC s).
Proof. intros H. now apply released_held, stopWebRTC_released. Qed.

Lemma failed_held (message : string) (s : State) :
  held s -> held (setupWebRTC_failed message s).
Proof.
  intros H. unfold setupWebRTC_failed.
  apply (held_same_call (stopWebRTC (set_error (Some message) s))).
  - apply same_call_fields; reflexivity.
  - apply stopWebRTC_held. exact H.
Qed.

Lemma new_call_held (audio_tracks : nat) (random_id : string) (s : State) :
  held s -> peerConnectionRef s = None ->
  held (new_peerConnection (seq (length (tracks s)) audio_tracks)
          (media_granted audio_tracks random_id s)).
Proof.
  intros H P t track Ht He. cbn in Ht |- *.
  exists (length (connections s)). split; [reflexivity|].
  unfold getSenders. cbn. rewrite list_lookup_middle by reflexivity. cbn.
  apply list_elem_of_fmap_2, elem_of_seq.
  destruct (le_lt_dec (length (tracks s)) t) as [Hge|Hlt].
  - split; [exact Hge|]. apply lookup_lt_Some in Ht.
    rewrite length_app, length_replicate in Ht. lia.
  - rewrite lookup_app_l in Ht by assumption.
    destruct (H t track Ht He) as (p & Hp & _). congruence.
Qed.

Lemma toggleMute_held (s : State) : held s -> held (toggleMute s).
Proof.
  intros H. unfold toggleMute.
  destruct (peerConnectionRef s) as [p|] eqn:Hp; [|exact H].
  intros t track Ht He. cbn in Ht |- *.
  rewrite alter_senders_lookup in Ht by apply mute_track_idempotent.
  destruct (tracks s !! t) as [x|] eqn:Hx; [|discriminate].
  assert (Hx' : ended x = false).
  { cbn in Ht. injection Ht as <-. revert He.
    destruct (bool_decide _); [|easy].
    unfold mute_track. now destruct (bool_decide _). }
  destruct (H t x Hx Hx') as (q & Hq & Hin). exists q. split; [exact Hq|].
  exact Hin.
Qed.

Lemma setup_resume_held (o : SetupOutcome) (s : State) :
  steady s -> held s -> possible (SetupReply o) s = true ->
  is_refusal (SetupReply o) = false ->
  held (setupWebRTC_resume o s).
Proof.
  intros (_ & _ & _ & I4 & _) H He Hr.
  cbn [possible] in He. unfold setupWebRTC_resume.
  destruct (setup s) as [stage|] eqn:Hs; [|discriminate].
  destruct stage as [| |p sdp| |p answer], o; cbn [expects] in He;
    try discriminate; try (apply failed_held; exact H).
  - apply (held_same_call
             (new_peerConnection (seq (length (tracks s)) audio_tracks)
                (media_granted audio_tracks random_id s))).
    + apply same_call_fields; reflexivity.
    + apply new_call_held; auto.
  - apply failed_held. apply new_call_held; auto.
  - destruct (peerConnectionRef s) eqn:P; [exact H|].
    apply failed_held. exact H.
  - set (s1 := set_connections
                 (alter (set_localDescription sdp) p (connections s)) s).
    assert (H1 : held s1).
    { apply (held_same_call s); [|exact H].
      repeat split; intros q.
      - now apply (open_alter (set_localDescription sdp) s s1 p).
      - now apply (getSenders_alter (set_localDescription sdp) s s1 p). }
    destruct (peerConnectionRef s1) eqn:P; [exact H1|].
    apply failed_held. exact H1.
  - destruct (peerConnectionRef s) eqn:P; [exact H|].
    apply failed_held. exact H.
  - apply (held_same_call s); [|exact H].
    repeat split; intros q.
    + now apply (open_alter (set_remoteDescription answer) s _ p).
    + now apply (getSenders_alter (set_remoteDescription answer) s _ p).
Qed.

Lemma step_held (e : Event) (s : State) :
  steady s -> held s -> possible e s = true -> is_refusal e = false ->
  held (step e s).
Proof.
  intros St H He Hr.
  destruct e as [o| |o|p candidate|k|p state| | ].
  - cbn [step]. unfold fetchRTCConfig_resume. destruct o; exact H.
  - cbn [step]. destruct (isRecording s); [now apply stopWebRTC_held|].
    unfold setupWebRTC. destruct (is_empty (apiKey s)); exact H.
  - now apply setup_resume_held.
  - cbn [step]. unfold handleIceCandidate. destruct candidate; exact H.
  - cbn [step]. unfold handleTrack.
    destruct k, (audioContextRef s); exact H.
  - cbn [step].
    set (s1 := set_connections
                 (alter (set_connectionState state) p (connections s)) s).
    assert (H1 : held s1).
    { intros t track Ht He'. destruct (H t track Ht He') as (q & Hq & Hin).
      exists q. split; [exact Hq|].
      now rewrite (getSenders_alter (set_connectionState state) s s1 p). }
    unfold handleConnectionStateChange.
    destruct (peerConnectionRef s1); [|exact H1].
    destruct (connections s1 !! _); [|exact H1].
    destruct (bool_decide (_ ∈ _)); [|exact H1].
    apply stopWebRTC_held. exact H1.
  - now apply toggleMute_held.
  - now apply stopWebRTC_held.
Qed.

(** X13. In every run in which the constructor of the connection does not
    throw, every local track that is live is held by a sender of the
    current connection: teardown, from wherever the run has got to, leaves
    no track of the microphone live, and none is live while there is no
    connection. *)
Theorem microphone_released_unless_refused
    (key : string) (evs : list Event) (s : State) :
  forallb (fun e => negb (is_refusal e)) evs = true ->
  run evs (mount key) = Some s ->
  held s /\ released (stopWebRTC s)
  /\ (peerConnectionRef s = None -> released s).
Proof.
  intros Hr Hrun.
  assert (H : steady s /\ held s).
  { revert Hr Hrun.
    assert (H0 : steady (mount key) /\ held (mount key)).
    { split; [apply mount_steady|]. apply released_held. constructor. }
    revert H0. generalize (mount key).
    induction evs as [|e evs IH]; intros s0 [St H]; cbn [run forallb].
    - now intros _ [= <-].
    - intros Hr. apply andb_true_iff in Hr as [He Hr].
      apply negb_true_iff in He.
      destruct (possible e s0) eqn:Hp; [|discriminate].
      apply IH; [|exact Hr]. split.
      + now apply step_steady.
      + now apply step_held. }
  destruct H as [_ H]. split; [exact H|]. split.
  - now apply stopWebRTC_released.
  - now apply held_released.
Qed.

Lemma microphone_released_unless_refused_witness :
  exists s,
    run (call_connected ++ [ClickMute]) (mount "key") = Some s
    /\ held s /\ released (stopWebRTC s)
    /\ (peerConnectionRef s = None -> released s).
Proof.
  eexists. split; [vm_compute; reflexivity|].
  apply (microphone_released_unless_refused "key"
           (call_connected ++ [ClickMute]));
    vm_compute; reflexivity.
Defined.

Lemma one_call_muted_as_shown_witness :
  exists s,
    run (call_connected ++ [ClickMute]) (mount "key") = Some s
    /\ one_call s /\ muted_as_shown s
    /\ (peerConnectionRef s = None -> isMuted s = false).
Proof.
  eexists. split; [vm_compute; reflexivity|].
  apply (one_call_muted_as_shown "key" (call_connected ++ [ClickMute])).
  vm_compute. reflexivity.
Defined.

(** ** Mute and unmute *)

Lemma set_same (s : State) :
  set_isMuted (isMuted s) (set_tracks (tracks s) s) = s.
Proof. now destruct s. Qed.

(** X15. Where the mute flag is what the audio tracks of the connection
    do, as it is in every state a run reaches, muting and unmuting (or the
    reverse) brings back the very same state. *)
Theorem mute_twice (s : State) :
  muted_as_shown s -> toggleMute (toggleMute s) = s.
Proof.
  intros H. unfold toggleMute at 2.
  destruct (peerConnectionRef s) as [p|] eqn:Hp.
  2:{ unfold toggleMute. now rewrite Hp. }
  unfold toggleMute. cbn. rewrite Hp.
  change (getSenders _ p) with (getSenders s p).
  transitivity (set_isMuted (isMuted s) (set_tracks (tracks s) s));
    [|apply set_same].
  rewrite negb_involutive. unfold set_isMuted, set_tracks. cbn. f_equal.
  apply list_eq. intros t.
  rewrite !alter_senders_lookup by apply mute_track_idempotent.
  destruct (tracks s !! t) as [x|] eqn:Hx; [|reflexivity]. cbn.
  destruct (decide (Some t ∈ getSenders s p)) as [Hin|Hin].
  - rewrite bool_decide_eq_true_2 by assumption. f_equal.
    unfold mute_track. cbn.
    destruct (bool_decide (kind x = audio)) eqn:E; cbn; rewrite ?E;
      [|reflexivity].
    apply bool_decide_eq_true in E.
    rewrite negb_involutive, <- (H p t x Hp Hin Hx E). now destruct x.
  - now rewrite bool_decide_eq_false_2 by assumption.
Qed.

Lemma mute_twice_witness :
  exists s,
    run call_connected (mount "key") = Some s
    /\ isMuted (toggleMute s) = true
    /\ toggleMute (toggleMute s) = s.
Proof.
  eexists. split; [vm_compute; reflexivity|].
  split; [vm_compute; reflexivity|].
  apply mute_twice.
  intros p t track. vm_compute.
  intros [= <-] _. destruct t as [|t]; [|discriminate].
  now intros [= <-].
Defined.

End VoiceChatRunsSpec.
